(** * Latest-version resolution for drafts

    A shallow embedding of [src/versions/drafts/queryDrafts.ts]: the selector
    [queryDrafts] and its two strategies, [queryDraftsV1] (latest version
    derived by an aggregation) and [queryDraftsV2] (latest version marked by a
    stored flag).

    The strategies talk to a Mongoose model.  Those calls are kept as events
    of a small free monad, so that what is handed to the model and what comes
    back are both visible in the statements. *)

From Stdlib Require Import String List ZArith Bool Lia Sorted.
Import ListNotations.
Local Open Scope string_scope.
Local Open Scope Z_scope.

(** ** JSON values and JS objects *)

#[local] Set Warnings "-register-all".

Inductive JValue : Type :=
| JUndefined
| JNull
| JBool (b : bool)
| JNum (n : Z)
| JStr (s : string)
| JDate (ms : Z)
| JArr (items : list JValue)
| JObj (fields : list (string * JValue)).

(** A JS object used as an ordered record: own keys in insertion order. *)
Definition Obj (V : Type) : Type := list (string * V).

Section Objects.
Context {V : Type}.

(** [o[k]], [None] standing for [undefined]. *)
Fixpoint obj_get (k : string) (o : Obj V) : option V :=
  match o with
  | [] => None
  | (k', v') :: rest => if String.eqb k k' then Some v' else obj_get k rest
  end.

(** [{ ...o, [k]: v }]: an existing key keeps its position and takes the
    new value, a new key is appended. *)
Fixpoint obj_set (k : string) (v : V) (o : Obj V) : Obj V :=
  match o with
  | [] => [(k, v)]
  | (k', v') :: rest =>
      if String.eqb k k' then (k, v) :: rest else (k', v') :: obj_set k v rest
  end.

(** [{ ...target, ...source }]. *)
Definition obj_spread (target source : Obj V) : Obj V :=
  fold_left (fun acc kv => obj_set (fst kv) (snd kv) acc) source target.

Definition obj_keys (o : Obj V) : list string := map fst o.
End Objects.

(** [Array.prototype.includes] on an array of strings. *)
Definition includes (l : list string) (s : string) : bool :=
  existsb (String.eqb s) l.

(** ** Data model *)

(** [Where]: a plain JSON object of constraints. *)
Definition Where : Type := Obj JValue.

(** [AccessResult = boolean | Where]. *)
Inductive AccessResult : Type :=
| AccessBool (b : bool)
| AccessWhere (w : Where).

(** Timestamps are BSON dates: milliseconds since the epoch. *)
Definition Timestamp : Type := Z.

(** A record of the versions collection. *)
Record VersionDoc : Type := mkVersionDoc {
  vd_id : string;                 (* _id, the version record's own id *)
  vd_parent : string;             (* parent *)
  vd_version : Obj JValue;        (* version *)
  vd_updatedAt : Timestamp;       (* updatedAt *)
  vd_createdAt : Timestamp;       (* createdAt *)
  vd_latest : option bool         (* latest *)
}.

(** [AggregateVersion<T>]: a row of the grouped aggregation. *)
Record AggregateVersion : Type := mkAggregateVersion {
  agg_id : string;                (* _id *)
  agg_version : Obj JValue;       (* version *)
  agg_updatedAt : Timestamp;      (* updatedAt *)
  agg_createdAt : Timestamp       (* createdAt *)
}.

(** [PaginatedDocs<T>]: [docs] and the paging fields beside it. *)
Record PaginatedDocs (D : Type) : Type := mkPaginatedDocs {
  docs : list D;
  pageInfo : Obj JValue
}.
Arguments mkPaginatedDocs {D} _ _.
Arguments docs {D} _.
Arguments pageInfo {D} _.

(** [PaginateOptions] as received: the optional [sort] mapping (its entries in
    key order, each order a token such as ['asc'] or ['desc']) and the other
    options. *)
Record PaginateOptions : Type := mkPaginateOptions {
  po_sort : option (Obj string);
  po_rest : Obj JValue
}.

(** The options object handed to the paginating calls:
    [{ ...paginationOptions, lean, leanWithId, useFacet, sort }].  The named
    fields are written after the spread, so they take precedence over
    [spo_rest]. *)
Record StorePaginateOptions : Type := mkStorePaginateOptions {
  spo_rest : Obj JValue;
  spo_lean : option bool;
  spo_leanWithId : option bool;
  spo_useFacet : option bool;
  spo_sort : Obj Z
}.

Record DatabaseConfig : Type := mkDatabaseConfig {
  queryDrafts_2_0 : option bool
}.

Record Config : Type := mkConfig {
  config_database : option DatabaseConfig
}.

Record MongoOptions : Type := mkMongoOptions {
  useFacet : option bool
}.

Record Payload : Type := mkPayload {
  payload_config : option Config;
  payload_mongoOptions : option MongoOptions
}.

Record CollectionConfig : Type := mkCollectionConfig {
  slug : string
}.

Record Collection : Type := mkCollection {
  collection_config : CollectionConfig
}.

(** ** Errors and results of JS evaluation *)

Inductive JSError : Type :=
| TypeError (message : string)
| StoreFailure (message : string).

Inductive Outcome (A : Type) : Type :=
| Ok (a : A)
| Err (e : JSError).
Arguments Ok {A} _.
Arguments Err {A} _.

(** What an awaited store call resolves to: an object carrying [docs], or a
    bare array of rows. *)
Inductive Resolved (D : Type) : Type :=
| Page (p : PaginatedDocs D)
| Rows (l : list D).
Arguments Page {D} _.
Arguments Rows {D} _.

(** The contents of the untyped [let result]: an awaited value, or a promise
    that was not awaited. *)
Inductive ResultValue (D : Type) : Type :=
| Awaited (r : Resolved D)
| Pending.
Arguments Awaited {D} _.
Arguments Pending {D}.

(** [result.docs]: only an object with a [docs] property has one; on an array
    and on a promise the property read yields [undefined]. *)
Definition result_docs {D : Type} (r : ResultValue D) : option (PaginatedDocs D) :=
  match r with
  | Awaited (Page p) => Some p
  | Awaited (Rows _) => None
  | Pending => None
  end.

(** The two [TypeError]s the strategies can raise themselves. *)
Definition entries_of_undefined : JSError :=
  TypeError "Cannot convert undefined or null to object".

Definition map_of_undefined : JSError :=
  TypeError "Cannot read properties of undefined (reading 'map')".

(** ** Sort remapping (lines 86-98 and 145-157, the same text twice) *)

Definition metadataSortKeys : list string := ["createdAt"; "updatedAt"; "_id"].

Definition sortKey (incomingSortKey : string) : string :=
  if negb (includes metadataSortKeys incomingSortKey)
  then "version." ++ incomingSortKey
  else incomingSortKey.

Definition sortOrder (order : string) : Z :=
  if String.eqb order "asc" then 1 else -1.

Definition remapSort (entries : list (string * string)) : Obj Z :=
  fold_left
    (fun sort entry => obj_set (sortKey (fst entry)) (sortOrder (snd entry)) sort)
    entries [].

(** What one entry of the mapping becomes. *)
Definition remapEntry (entry : string * string) : string * Z :=
  (sortKey (fst entry), sortOrder (snd entry)).

(** ** Result normalization (lines 108-113 and 167-173) *)

Definition normalizeV1 (doc : AggregateVersion) : Obj JValue :=
  obj_set "createdAt" (JDate (agg_createdAt doc))
    (obj_set "updatedAt" (JDate (agg_updatedAt doc))
       (obj_spread [("_id", JStr (agg_id doc))] (agg_version doc))).

Definition normalizeV2 (doc : VersionDoc) : Obj JValue :=
  obj_set "createdAt" (JDate (vd_createdAt doc))
    (obj_set "updatedAt" (JDate (vd_updatedAt doc))
       (obj_spread [("_id", JStr (vd_parent doc)); ("id", JStr (vd_parent doc))]
          (vd_version doc))).

(** ** Optional chaining of the configuration *)

(** [payload.config?.database?.queryDrafts_2_0], with its truthiness. *)
Definition flag_queryDrafts_2_0 (p : Payload) : bool :=
  match payload_config p with
  | None => false
  | Some c =>
      match config_database c with
      | None => false
      | Some d =>
          match queryDrafts_2_0 d with
          | None => false
          | Some b => b
          end
      end
  end.

(** [payload.mongoOptions?.useFacet]. *)
Definition mongo_useFacet (p : Payload) : option bool :=
  match payload_mongoOptions p with
  | None => None
  | Some m => useFacet m
  end.

(** Modelled from the spec: [hasWhereAccessResult] of [auth] is not among the
    sources.  Section 3 gives an AccessResult as true, false or a predicate;
    the guard singles out the predicate and narrows the type to it. *)
Definition hasWhereAccessResult (a : AccessResult) : option Where :=
  match a with
  | AccessWhere w => Some w
  | AccessBool _ => None
  end.

(** [incomingWhere || {}]. *)
Definition where_or_empty (w : option Where) : Where :=
  match w with
  | Some w' => w'
  | None => []
  end.

(** [{ latest: { equals: true } }]. *)
Definition latestWhere : Where := [("latest", JObj [("equals", JBool true)])].

(** ** The model's calls as events *)

Section Strategies.
(** [Query]: the executable predicate [buildQuery] returns; [Req]: the
    request object, passed along untouched. *)
Context {Query Req : Type}.

(** The two helpers of other modules the strategies call on predicates. *)
Variable appendVersionToQueryKey : Where -> Where.
Variable combineQueries : Where -> option Where -> Where.

Record Args : Type := mkArgs {
  accessResult : AccessResult;
  collection : Collection;
  req : Req;
  overrideAccess : bool;
  paginationOptions : option PaginateOptions;
  payload : Payload;
  where_ : option Where
}.

(** The argument object of [VersionModel.buildQuery]. *)
Record BuildQueryArgs : Type := mkBuildQueryArgs {
  bq_where : Where;
  bq_access : option AccessResult;
  bq_req : Req;
  bq_overrideAccess : bool
}.

(** Aggregation stages, as the object literals of lines 64-75. *)
Inductive Stage : Type :=
| SortStage (key : string) (direction : Z)                    (* { $sort: { key: direction } } *)
| GroupStage (idExpr : string) (firsts : list (string * string))
                                 (* { $group: { _id: idExpr, f: { $first: e }, ... } } *)
| MatchStage (q : Query).                                     (* { $match: q } *)

Record Aggregate : Type := mkAggregate {
  pipeline : list Stage;
  allowDiskUse : bool
}.

(** The calls on [VersionModel = payload.versions[slug]], each with the type
    of what it yields.  [AggregateExec] yields nothing the caller can see:
    the strategy does not await it. *)
Inductive ModelE : Type -> Type :=
| BuildQuery (model : string) (a : BuildQueryArgs) : ModelE Query
| AggregatePaginate (model : string) (a : Aggregate) (o : StorePaginateOptions)
    : ModelE (Resolved AggregateVersion)
| AggregateExec (model : string) (a : Aggregate) : ModelE unit
| Paginate (model : string) (q : Query) (o : StorePaginateOptions)
    : ModelE (Resolved VersionDoc)
| Find (model : string) (q : Query) : ModelE (Resolved VersionDoc).

(** Programs: return, throw, or call the model and go on with its answer. *)
Inductive Prog (R : Type) : Type :=
| Ret (r : R)
| Throw (e : JSError)
| Call {X : Type} (c : ModelE X) (k : X -> Prog R).
Arguments Ret {R} _.
Arguments Throw {R} _.
Arguments Call {R X} _ _.

Fixpoint bind {A B : Type} (p : Prog A) (f : A -> Prog B) : Prog B :=
  match p with
  | Ret a => f a
  | Throw e => Throw e
  | Call c k => Call c (fun x => bind (k x) f)
  end.

Definition call {X : Type} (c : ModelE X) : Prog X := Call c Ret.

Notation "x <- c ;; k" := (bind c (fun x => k))
  (at level 61, c at next level, right associativity).

(** [Object.entries(o)]: a [TypeError] on [undefined]. *)
Definition object_entries {V : Type} (o : option (Obj V)) : Prog (list (string * V)) :=
  match o with
  | Some entries => Ret entries
  | None => Throw entries_of_undefined
  end.

(** [{ ...result, docs: result.docs.map(f) }]: reading [map] off an
    [undefined] [docs] is a [TypeError]. *)
Definition map_docs {D : Type} (f : D -> Obj JValue) (result : ResultValue D)
  : Prog (PaginatedDocs (Obj JValue)) :=
  match result_docs result with
  | Some p => Ret (mkPaginatedDocs (map f (docs p)) (pageInfo p))
  | None => Throw map_of_undefined
  end.

(** Lines 62-78. *)
Definition aggregatePipeline (versionQuery : Query) : list Stage :=
  [ SortStage "updatedAt" (-1);
    GroupStage "$parent"
      [("version", "$version"); ("updatedAt", "$updatedAt"); ("createdAt", "$createdAt")];
    MatchStage versionQuery ].

(** Lines 47-60: the argument object of Strategy A's [buildQuery]. *)
Definition versionQueryArgs (args : Args) : BuildQueryArgs :=
  let where' := appendVersionToQueryKey (where_or_empty (where_ args)) in
  let versionAccessResult :=
    match hasWhereAccessResult (accessResult args) with
    | Some w => Some (AccessWhere (appendVersionToQueryKey w))
    | None => None
    end in
  mkBuildQueryArgs where' versionAccessResult (req args) (overrideAccess args).

(** Lines 128-135: the argument object of Strategy B's [buildQuery]. *)
Definition versionsQueryArgs (args : Args) : BuildQueryArgs :=
  let combinedQuery := combineQueries latestWhere (where_ args) in
  mkBuildQueryArgs combinedQuery (Some (accessResult args))
    (req args) (overrideAccess args).

Definition queryDraftsV1 (args : Args) : Prog (PaginatedDocs (Obj JValue)) :=
  let VersionModel := slug (collection_config (collection args)) in
  versionQuery <- call (BuildQuery VersionModel (versionQueryArgs args)) ;;
  let aggregate := mkAggregate (aggregatePipeline versionQuery) true in
  result <- match paginationOptions args with
            | Some po =>
                entries <- object_entries (po_sort po) ;;
                let aggregatePaginateOptions :=
                  mkStorePaginateOptions (po_rest po) None None
                    (mongo_useFacet (payload args)) (remapSort entries) in
                r <- call (AggregatePaginate VersionModel aggregate
                             aggregatePaginateOptions) ;;
                Ret (Awaited r)
            | None =>
                _ <- call (AggregateExec VersionModel aggregate) ;;
                Ret Pending
            end ;;
  map_docs normalizeV1 result.

Definition queryDraftsV2 (args : Args) : Prog (PaginatedDocs (Obj JValue)) :=
  let VersionModel := slug (collection_config (collection args)) in
  versionsQuery <- call (BuildQuery VersionModel (versionsQueryArgs args)) ;;
  result <- match paginationOptions args with
            | Some po =>
                entries <- object_entries (po_sort po) ;;
                let paginationOptionsToUse :=
                  mkStorePaginateOptions (po_rest po) (Some true) (Some true)
                    (mongo_useFacet (payload args)) (remapSort entries) in
                r <- call (Paginate VersionModel versionsQuery
                             paginationOptionsToUse) ;;
                Ret (Awaited r)
            | None =>
                r <- call (Find VersionModel versionsQuery) ;;
                Ret (Awaited r)
            end ;;
  map_docs normalizeV2 result.

Definition queryDrafts (args : Args) : Prog (PaginatedDocs (Obj JValue)) :=
  if flag_queryDrafts_2_0 (payload args)
  then queryDraftsV2 args
  else queryDraftsV1 args.

(** ** Running a program against a model *)

(** The model: to each call, a value or a failure. *)
Definition Env : Type := forall X : Type, ModelE X -> Outcome X.

Inductive Event : Type :=
| Ev {X : Type} (c : ModelE X).

(** The calls made, in order, and the outcome.  A failed call ends the run
    with that failure. *)
Fixpoint run {R : Type} (env : Env) (p : Prog R) : list Event * Outcome R :=
  match p with
  | Ret r => ([], Ok r)
  | Throw e => ([], Err e)
  | Call c k =>
      match env _ c with
      | Ok x => let (trace, out) := run env (k x) in (Ev c :: trace, out)
      | Err e => ([Ev c], Err e)
      end
  end.
End Strategies.

Arguments Args : clear implicits.
Arguments BuildQueryArgs : clear implicits.
Arguments Stage : clear implicits.
Arguments Aggregate : clear implicits.
Arguments ModelE : clear implicits.
Arguments Prog : clear implicits.
Arguments Env : clear implicits.
Arguments Event : clear implicits.
Arguments Ret {Query Req R} _.
Arguments Throw {Query Req R} _.
Arguments Call {Query Req R X} _ _.

(** ** The store's reading of the aggregation pipeline

    The stages are executed by the store, not by this module; what follows is
    the store's documented behaviour for the three stages the strategy uses,
    over the typed rows of the versions collection.  [$sort] is taken stable
    (rows with equal keys keep their order) and [$group] lists the groups in
    order of first appearance; the store promises neither. *)

Inductive Stream : Type :=
| RawDocs (l : list VersionDoc)
| GroupedDocs (l : list AggregateVersion).

(** Whether a row with key [a] must come strictly before one with key [b]. *)
Definition strictly_before (direction : Z) (a b : Timestamp) : bool :=
  if direction =? 1 then a <? b else b <? a.

Section Sorting.
Context {A : Type}.
Variable key : A -> Timestamp.
Variable direction : Z.

Fixpoint sort_insert (x : A) (sorted : list A) : list A :=
  match sorted with
  | [] => [x]
  | y :: rest =>
      if strictly_before direction (key y) (key x)
      then y :: sort_insert x rest
      else x :: sorted
  end.

Definition sort_by (l : list A) : list A := fold_right sort_insert [] l.

(** Newest first: every row is at least as recent as all rows after it. *)
Definition newest_first : list A -> Prop :=
  StronglySorted (fun a b => key b <= key a).
End Sorting.

Definition direction_ok (direction : Z) : bool :=
  (direction =? 1) || (direction =? -1).

Definition raw_timestamp (key : string) : option (VersionDoc -> Timestamp) :=
  if String.eqb key "updatedAt" then Some vd_updatedAt
  else if String.eqb key "createdAt" then Some vd_createdAt
  else None.

Definition grouped_timestamp (key : string) : option (AggregateVersion -> Timestamp) :=
  if String.eqb key "updatedAt" then Some agg_updatedAt
  else if String.eqb key "createdAt" then Some agg_createdAt
  else None.

(** The row [$group] builds from the first record of a group:
    [_id: '$parent'] and the three [$first] fields. *)
Definition as_group (r : VersionDoc) : AggregateVersion :=
  mkAggregateVersion (vd_parent r) (vd_version r) (vd_updatedAt r) (vd_createdAt r).

(** One row per [parent], built from the first record met with it. *)
Fixpoint group_first (seen : list string) (l : list VersionDoc) : list AggregateVersion :=
  match l with
  | [] => []
  | r :: rest =>
      if includes seen (vd_parent r)
      then group_first seen rest
      else as_group r :: group_first (vd_parent r :: seen) rest
  end.

Fixpoint pairs_eqb (a b : list (string * string)) : bool :=
  match a, b with
  | [], [] => true
  | (x1, y1) :: a', (x2, y2) :: b' =>
      String.eqb x1 x2 && String.eqb y1 y2 && pairs_eqb a' b'
  | _, _ => false
  end.

(** The one [$group] shape read here: by [$parent], first of [$version],
    [$updatedAt] and [$createdAt]. *)
Definition groups_latest (idExpr : string) (firsts : list (string * string)) : bool :=
  String.eqb idExpr "$parent"
  && pairs_eqb firsts
       [("version", "$version"); ("updatedAt", "$updatedAt"); ("createdAt", "$createdAt")].

Section Aggregation.
Context {Query : Type}.

(** Whether a grouped row satisfies an executable predicate. *)
Variable matches : Query -> AggregateVersion -> bool.

(** One stage; [None] where the stage is outside what is read here. *)
Definition run_stage (s : Stage Query) (x : Stream) : option Stream :=
  match s, x with
  | SortStage key direction, RawDocs l =>
      match raw_timestamp key with
      | Some f => if direction_ok direction
                  then Some (RawDocs (sort_by f direction l)) else None
      | None => None
      end
  | SortStage key direction, GroupedDocs l =>
      match grouped_timestamp key with
      | Some f => if direction_ok direction
                  then Some (GroupedDocs (sort_by f direction l)) else None
      | None => None
      end
  | GroupStage idExpr firsts, RawDocs l =>
      if groups_latest idExpr firsts
      then Some (GroupedDocs (group_first [] l)) else None
  | GroupStage _ _, GroupedDocs _ => None
  | MatchStage q, GroupedDocs l => Some (GroupedDocs (filter (matches q) l))
  | MatchStage _, RawDocs _ => None
  end.

(** The stages one after the other, each on the output of the one before. *)
Fixpoint run_pipeline (stages : list (Stage Query)) (x : Stream) : option Stream :=
  match stages with
  | [] => Some x
  | s :: rest =>
      match run_stage s x with
      | Some x' => run_pipeline rest x'
      | None => None
      end
  end.

(** The rows an aggregate yields over the records of the collection. *)
Definition aggregate_rows (a : Aggregate Query) (store : list VersionDoc)
  : option (list AggregateVersion) :=
  match run_pipeline (pipeline a) (RawDocs store) with
  | Some (GroupedDocs rows) => Some rows
  | _ => None
  end.
End Aggregation.

(** ** Reading a trace *)

Section Traces.
Context {Query Req : Type}.

(** The argument objects handed to [buildQuery], in order. *)
Fixpoint buildQuery_calls (trace : list (Event Query Req)) : list (BuildQueryArgs Req) :=
  match trace with
  | [] => []
  | Ev c :: rest =>
      match c with
      | BuildQuery _ a => a :: buildQuery_calls rest
      | _ => buildQuery_calls rest
      end
  end.

(** The aggregates handed to the store, paginated or not, in order. *)
Fixpoint aggregate_calls (trace : list (Event Query Req)) : list (Aggregate Query) :=
  match trace with
  | [] => []
  | Ev c :: rest =>
      match c with
      | AggregatePaginate _ a _ => a :: aggregate_calls rest
      | AggregateExec _ a => a :: aggregate_calls rest
      | _ => aggregate_calls rest
      end
  end.

(** The options handed to the paginating calls, in order. *)
Fixpoint paginate_calls (trace : list (Event Query Req)) : list StorePaginateOptions :=
  match trace with
  | [] => []
  | Ev c :: rest =>
      match c with
      | AggregatePaginate _ _ o => o :: paginate_calls rest
      | Paginate _ _ o => o :: paginate_calls rest
      | _ => paginate_calls rest
      end
  end.

(** The calls that execute something on the store: all but [buildQuery]. *)
Definition is_execution (e : Event Query Req) : bool :=
  match e with
  | Ev c =>
      match c with
      | BuildQuery _ _ => false
      | _ => true
      end
  end.
End Traces.

(** ** A small collection to run the strategies on *)

(** An executable predicate for the examples: the [_status] a version must
    carry. *)
Definition status_matches (q : string) (g : AggregateVersion) : bool :=
  match obj_get "_status" (agg_version g) with
  | Some (JStr s) => String.eqb s q
  | _ => false
  end.

(** Entity X saved twice (published at 10, back to draft at 20), entity Y
    saved once. *)
Definition demo_store : list VersionDoc :=
  [ mkVersionDoc "v1" "X" [("title", JStr "first"); ("_status", JStr "published")] 10 10 None;
    mkVersionDoc "v2" "X" [("title", JStr "second"); ("_status", JStr "draft")] 20 10 None;
    mkVersionDoc "v3" "Y" [("title", JStr "other"); ("_status", JStr "published")] 15 15
      (Some true) ].

(** A model over [store]: [buildQuery] answers [q], the aggregation is run on
    the records and returned as one page, [paginate] and [find] answer
    [found]. *)
Definition demo_model (q : string) (store : list VersionDoc) (found : Resolved VersionDoc)
  : Env string unit :=
  fun X c =>
    match c in ModelE _ _ X return Outcome X with
    | BuildQuery _ _ => Ok q
    | AggregatePaginate _ a _ =>
        match aggregate_rows status_matches a store with
        | Some rows => Ok (Page (mkPaginatedDocs rows [("page", JNum 1)]))
        | None => Err (StoreFailure "pipeline not supported")
        end
    | AggregateExec _ _ => Ok tt
    | Paginate _ _ _ => Ok found
    | Find _ _ => Ok found
    end.

Definition demo_args (flag : option bool) (sort : option (Obj string)) : Args unit :=
  mkArgs (AccessBool true) (mkCollection (mkCollectionConfig "posts")) tt false
    (Some (mkPaginateOptions sort [("limit", JNum 10)]))
    (mkPayload (Some (mkConfig (Some (mkDatabaseConfig flag)))) None)
    None.

(** The same call without a pagination spec. *)
Definition demo_args_unpaginated (flag : option bool) : Args unit :=
  mkArgs (AccessBool true) (mkCollection (mkCollectionConfig "posts")) tt false
    None
    (mkPayload (Some (mkConfig (Some (mkDatabaseConfig flag)))) None)
    None.

(** A flagged record whose payload carries fields named like the metadata. *)
Definition forged_row : VersionDoc :=
  mkVersionDoc "v9" "Z"
    [("id", JStr "forged"); ("updatedAt", JStr "never"); ("title", JStr "t")]
    5 4 (Some true).

(** A collection whose one record keeps its own id in the payload. *)
Definition own_id_store : list VersionDoc :=
  [ mkVersionDoc "v7" "W" [("_id", JStr "v7"); ("_status", JStr "published")] 7 6 None ].

(** Stand-ins for the two predicate helpers in the examples. *)
Definition demo_append (w : Where) : Where :=
  map (fun kv => ("version." ++ fst kv, snd kv)) w.

Definition demo_combine (a : Where) (b : option Where) : Where :=
  [("and", JArr [JObj a; JObj (where_or_empty b)])].

(** ** More readers of a trace *)

Section TraceReaders.
Context {Query Req : Type}.

(** The executable predicates handed to [paginate] and [find], in order. *)
Fixpoint query_calls (trace : list (Event Query Req)) : list Query :=
  match trace with
  | [] => []
  | Ev c :: rest =>
      match c with
      | Paginate _ q _ => q :: query_calls rest
      | Find _ q => q :: query_calls rest
      | _ => query_calls rest
      end
  end.

(** The model a call is made on. *)
Definition event_model (e : Event Query Req) : string :=
  match e with
  | Ev c =>
      match c with
      | BuildQuery m _ => m
      | AggregatePaginate m _ _ => m
      | AggregateExec m _ => m
      | Paginate m _ _ => m
      | Find m _ => m
      end
  end.
End TraceReaders.

(** A model that is down: every call fails. *)
Definition failing_model : Env string unit :=
  fun X c => Err (StoreFailure "store unreachable").

(** * Properties *)

(** ** JS objects *)

Section ObjectFacts.
Context {V : Type}.
Implicit Types (o target source : Obj V) (k : string) (v : V).

Lemma obj_get_set_same k v o : obj_get k (obj_set k v o) = Some v.
Proof.
  induction o as [|[k' v'] rest IH]; simpl.
  - now rewrite String.eqb_refl.
  - destruct (String.eqb k k') eqn:E; simpl.
    + now rewrite String.eqb_refl.
    + now rewrite E.
Qed.

Lemma obj_get_set_other k k' v o :
  k <> k' -> obj_get k (obj_set k' v o) = obj_get k o.
Proof.
  intros Hne.
  assert (Hkk' : String.eqb k k' = false) by now apply String.eqb_neq.
  induction o as [|[k0 v0] rest IH]; simpl.
  - now rewrite Hkk'.
  - destruct (String.eqb k' k0) eqn:E; simpl.
    + apply String.eqb_eq in E; subst k0. now rewrite Hkk'.
    + now rewrite IH.
Qed.

Lemma obj_get_none_iff k o : obj_get k o = None <-> ~ In k (obj_keys o).
Proof.
  induction o as [|[k' v'] rest IH]; simpl.
  - tauto.
  - destruct (String.eqb k k') eqn:E.
    + apply String.eqb_eq in E; subst. split; [discriminate | tauto].
    + apply String.eqb_neq in E. rewrite IH. split; intros H.
      * intros [H1 | H1]; [now apply E | now apply H].
      * tauto.
Qed.

(** A spread leaves alone every key the source does not have. *)
Lemma obj_get_spread_absent k target source :
  obj_get k source = None ->
  obj_get k (obj_spread target source) = obj_get k target.
Proof.
  unfold obj_spread. revert target.
  induction source as [|[k' v'] rest IH]; intros target Hnone; simpl in *.
  - reflexivity.
  - destruct (String.eqb k k') eqn:E; [discriminate|].
    rewrite IH by assumption. apply obj_get_set_other.
    now apply String.eqb_neq.
Qed.

(** A spread gives every key of the source the source's value. *)
Lemma obj_get_spread_present k v target source :
  NoDup (obj_keys source) ->
  obj_get k source = Some v ->
  obj_get k (obj_spread target source) = Some v.
Proof.
  unfold obj_spread. revert target.
  induction source as [|[k' v'] rest IH]; intros target Hnd Hsome; simpl in *.
  - discriminate.
  - inversion Hnd as [|? ? Hnin Hnd']; subst.
    destruct (String.eqb k k') eqn:E.
    + apply String.eqb_eq in E. subst k'. inversion Hsome; subst v'.
      fold (obj_spread (obj_set k v target) rest).
      rewrite obj_get_spread_absent by now apply obj_get_none_iff.
      apply obj_get_set_same.
    + now apply IH.
Qed.

Lemma obj_set_fresh k v o : ~ In k (obj_keys o) -> obj_set k v o = (o ++ [(k, v)])%list.
Proof.
  induction o as [|[k' v'] rest IH]; simpl; intros Hnin.
  - reflexivity.
  - destruct (String.eqb k k') eqn:E.
    + apply String.eqb_eq in E. subst. tauto.
    + rewrite IH by tauto. reflexivity.
Qed.
End ObjectFacts.

Lemma Forall2_map_image {A B : Type} (P : A -> B -> Prop) (f : A -> B) (l : list A) :
  (forall x, P x (f x)) -> Forall2 P l (map f l).
Proof.
  intros HP. induction l as [|x l IH]; simpl; constructor; auto.
Qed.

(** ** Sort remapping *)

Lemma sortKey_metadata k :
  In k metadataSortKeys -> sortKey k = k.
Proof.
  unfold metadataSortKeys. simpl.
  intros [<- | [<- | [<- | []]]]; reflexivity.
Qed.

Lemma includes_In l s : includes l s = true <-> In s l.
Proof.
  unfold includes. rewrite existsb_exists. split.
  - intros [x [Hin Heq]]. apply String.eqb_eq in Heq. now subst.
  - intros Hin. exists s. split; [assumption | apply String.eqb_refl].
Qed.

Lemma sortKey_payload k :
  ~ In k metadataSortKeys -> sortKey k = "version." ++ k.
Proof.
  intros Hnin. unfold sortKey.
  destruct (includes metadataSortKeys k) eqn:E; simpl.
  - apply includes_In in E. contradiction.
  - reflexivity.
Qed.

Lemma sortKey_cases k :
  (In k metadataSortKeys /\ sortKey k = k)
  \/ (~ In k metadataSortKeys /\ sortKey k = "version." ++ k).
Proof.
  destruct (includes metadataSortKeys k) eqn:E.
  - left. apply includes_In in E. split; [assumption | now apply sortKey_metadata].
  - right. assert (H : ~ In k metadataSortKeys).
    { intros Hin. apply includes_In in Hin. congruence. }
    split; [assumption | now apply sortKey_payload].
Qed.

Lemma sortKey_injective a b : sortKey a = sortKey b -> a = b.
Proof.
  destruct (sortKey_cases a) as [[Ha ->] | [Ha ->]];
    destruct (sortKey_cases b) as [[Hb ->] | [Hb ->]]; intros H.
  - assumption.
  - subst a. unfold metadataSortKeys in Ha. simpl in Ha.
    destruct Ha as [Ha | [Ha | [Ha | []]]]; discriminate Ha.
  - subst b. unfold metadataSortKeys in Hb. simpl in Hb.
    destruct Hb as [Hb | [Hb | [Hb | []]]]; discriminate Hb.
  - simpl in H. now inversion H.
Qed.

Lemma remapSort_from acc entries :
  NoDup (obj_keys acc ++ map sortKey (obj_keys entries))%list ->
  fold_left
    (fun sort entry => obj_set (sortKey (fst entry)) (sortOrder (snd entry)) sort)
    entries acc
  = (acc ++ map remapEntry entries)%list.
Proof.
  revert acc. induction entries as [|[k o] rest IH]; intros acc Hnd; simpl in *.
  - now rewrite app_nil_r.
  - assert (Hfresh : ~ In (sortKey k) (obj_keys acc)).
    { intros Hin. apply NoDup_remove_2 in Hnd. apply Hnd.
      apply in_or_app. now left. }
    rewrite obj_set_fresh by assumption.
    rewrite IH.
    + rewrite <- app_assoc. reflexivity.
    + unfold obj_keys in *. rewrite map_app. simpl.
      rewrite <- app_assoc. simpl.
      apply NoDup_remove_1 in Hnd as Hnd1.
      apply NoDup_remove_2 in Hnd as Hnd2.
      clear IH Hfresh.
      revert Hnd1 Hnd2. generalize (map sortKey (map fst rest)) as ks.
      generalize (map fst acc) as as_. intros as_ ks.
      induction as_ as [|a as_ IHa]; simpl; intros Hnd1 Hnd2.
      * constructor; assumption.
      * inversion Hnd1 as [|? ? Hnin Hnd1']; subst.
        constructor.
        -- intros Hin. apply in_app_or in Hin as [Hin | [Hin | Hin]].
           ++ apply Hnin. apply in_or_app. now left.
           ++ subst a. apply Hnd2. now left.
           ++ apply Hnin. apply in_or_app. now right.
        -- apply IHa; [assumption | tauto].
Qed.

Lemma NoDup_map_sortKey ks : NoDup ks -> NoDup (map sortKey ks).
Proof.
  induction 1 as [|k ks Hnin Hnd IH]; simpl; constructor.
  - rewrite in_map_iff. intros [k' [Heq Hin]].
    apply sortKey_injective in Heq. now subst.
  - assumption.
Qed.

Lemma remapSort_distinct_keys entries :
  NoDup (obj_keys entries) -> remapSort entries = map remapEntry entries.
Proof.
  intros Hnd. unfold remapSort. rewrite remapSort_from; [reflexivity|].
  simpl. now apply NoDup_map_sortKey.
Qed.

(** ** The store's sort and group stages *)

Section SortFacts.
Context {A : Type}.
Variable key : A -> Timestamp.

Lemma sort_insert_In d x l y : In y (sort_insert key d x l) <-> y = x \/ In y l.
Proof.
  induction l as [|z l IH]; simpl.
  - intuition.
  - destruct (strictly_before d (key z) (key x)); simpl.
    + rewrite IH. intuition.
    + intuition.
Qed.

Lemma sort_by_In d l y : In y (sort_by key d l) <-> In y l.
Proof.
  induction l as [|x l IH]; simpl.
  - tauto.
  - rewrite sort_insert_In, IH. intuition.
Qed.

Lemma sort_insert_newest_first x l :
  newest_first key l -> newest_first key (sort_insert key (-1) x l).
Proof.
  unfold newest_first.
  induction l as [|z l IH]; simpl; intros Hs.
  - constructor; constructor.
  - inversion Hs as [|? ? Hs' Hall]; subst.
    unfold strictly_before. simpl.
    destruct (key x <? key z) eqn:E.
    + apply Z.ltb_lt in E. constructor.
      * now apply IH.
      * apply Forall_forall. intros y Hy.
        apply sort_insert_In in Hy as [-> | Hy]; [lia|].
        rewrite Forall_forall in Hall. now apply Hall.
    + apply Z.ltb_ge in E. constructor; [assumption|].
      constructor; [assumption|].
      apply Forall_forall. intros y Hy.
      rewrite Forall_forall in Hall. specialize (Hall y Hy). lia.
Qed.

Lemma sort_by_newest_first l : newest_first key (sort_by key (-1) l).
Proof.
  induction l as [|x l IH]; simpl.
  - constructor.
  - now apply sort_insert_newest_first.
Qed.

Lemma newest_first_suffix l1 l2 : newest_first key (l1 ++ l2) -> newest_first key l2.
Proof.
  unfold newest_first. induction l1 as [|x l1 IH]; simpl; intros Hs.
  - assumption.
  - inversion Hs; subst. now apply IH.
Qed.
End SortFacts.

(** A row of [group_first] comes from the first record of its parent. *)
Lemma group_first_In seen l g :
  In g (group_first seen l) ->
  exists l1 r l2,
    l = (l1 ++ r :: l2)%list /\ g = as_group r
    /\ ~ In (vd_parent r) seen
    /\ (forall x, In x l1 -> vd_parent x <> vd_parent r).
Proof.
  revert seen. induction l as [|r0 rest IH]; simpl; intros seen Hin.
  - contradiction.
  - destruct (includes seen (vd_parent r0)) eqn:E.
    + apply includes_In in E.
      destruct (IH _ Hin) as (l1 & r & l2 & -> & -> & Hns & Hl1).
      exists (r0 :: l1), r, l2. repeat split; try assumption.
      intros x [<- | Hx]; [congruence | now apply Hl1].
    + assert (Hn0 : ~ In (vd_parent r0) seen).
      { intros H. apply includes_In in H. congruence. }
      destruct Hin as [<- | Hin].
      * exists [], r0, rest. repeat split; try assumption. intros x [].
      * destruct (IH _ Hin) as (l1 & r & l2 & -> & -> & Hns & Hl1).
        exists (r0 :: l1), r, l2. simpl in Hns. repeat split.
        -- tauto.
        -- intros x [<- | Hx]; [intros Heq; apply Hns; now left | now apply Hl1].
Qed.

(** Every parent met, and not yet seen, gets a row. *)
Lemma group_first_complete seen l r :
  In r l -> ~ In (vd_parent r) seen ->
  exists g, In g (group_first seen l) /\ agg_id g = vd_parent r.
Proof.
  revert seen. induction l as [|r0 rest IH]; simpl; intros seen Hin Hns.
  - contradiction.
  - destruct (includes seen (vd_parent r0)) eqn:E.
    + apply includes_In in E.
      destruct Hin as [-> | Hin]; [contradiction|]. now apply IH.
    + destruct (String.eqb (vd_parent r0) (vd_parent r)) eqn:Ep.
      * apply String.eqb_eq in Ep. exists (as_group r0). split; [now left | assumption].
      * apply String.eqb_neq in Ep.
        destruct Hin as [-> | Hin]; [congruence|].
        destruct (IH (vd_parent r0 :: seen) Hin) as (g & Hg & Hid).
        -- simpl. intros [H | H]; [now apply Ep | now apply Hns].
        -- exists g. split; [now right | assumption].
Qed.

(** One row per parent. *)
Lemma group_first_NoDup seen l : NoDup (map agg_id (group_first seen l)).
Proof.
  revert seen. induction l as [|r0 rest IH]; simpl; intros seen.
  - constructor.
  - destruct (includes seen (vd_parent r0)); [apply IH|].
    simpl. constructor; [|apply IH].
    rewrite in_map_iff. intros (g & Hid & Hg).
    apply group_first_In in Hg as (l1 & r & l2 & _ & -> & Hns & _).
    simpl in *. apply Hns. left. now symmetry.
Qed.

Lemma group_first_one_per_parent seen l g g' :
  In g (group_first seen l) -> In g' (group_first seen l) ->
  agg_id g = agg_id g' -> g = g'.
Proof.
  pose proof (group_first_NoDup seen l) as Hnd.
  induction (group_first seen l) as [|x rows IH]; simpl in *; [contradiction|].
  inversion Hnd as [|? ? Hnin Hnd']; subst.
  intros [<- | Hg] [<- | Hg'] Hid.
  - reflexivity.
  - exfalso. apply Hnin. rewrite Hid. now apply in_map.
  - exfalso. apply Hnin. rewrite <- Hid. now apply in_map.
  - now apply IH.
Qed.

(** The row of a parent is built from a most recent record of that parent. *)
Lemma latest_row_is_most_recent store g :
  In g (group_first [] (sort_by vd_updatedAt (-1) store)) ->
  exists r, In r store /\ g = as_group r
            /\ forall r', In r' store -> vd_parent r' = vd_parent r ->
                           vd_updatedAt r' <= vd_updatedAt r.
Proof.
  intros Hg.
  destruct (group_first_In _ _ _ Hg) as (l1 & r & l2 & Hsplit & -> & _ & Hl1).
  pose proof (sort_by_newest_first vd_updatedAt store) as Hsorted.
  rewrite Hsplit in Hsorted. apply newest_first_suffix in Hsorted.
  inversion Hsorted as [|? ? _ Hall]; subst.
  exists r. split; [|split; [reflexivity|]].
  - apply (sort_by_In vd_updatedAt (-1)). rewrite Hsplit.
    apply in_or_app. right. now left.
  - intros r' Hr' Hp.
    apply (sort_by_In vd_updatedAt (-1)) in Hr'. rewrite Hsplit in Hr'.
    apply in_app_or in Hr' as [Hr' | [<- | Hr']].
    + exfalso. now apply (Hl1 r').
    + lia.
    + rewrite Forall_forall in Hall. now apply Hall.
Qed.

(** A record strictly more recent than the other records of its parent is the
    one its parent's row is built from. *)
Lemma strictly_latest_is_row store r :
  In r store ->
  (forall r', In r' store -> vd_parent r' = vd_parent r ->
              r' = r \/ vd_updatedAt r' < vd_updatedAt r) ->
  In (as_group r) (group_first [] (sort_by vd_updatedAt (-1) store))
  /\ forall g, In g (group_first [] (sort_by vd_updatedAt (-1) store)) ->
               agg_id g = vd_parent r -> g = as_group r.
Proof.
  intros Hr Hlatest.
  assert (Huniq : forall g, In g (group_first [] (sort_by vd_updatedAt (-1) store)) ->
                            agg_id g = vd_parent r -> g = as_group r).
  { intros g Hg Hid.
    destruct (latest_row_is_most_recent _ _ Hg) as (r0 & Hr0 & -> & Hmax).
    simpl in Hid.
    destruct (Hlatest r0 Hr0 Hid) as [-> | Hlt]; [reflexivity|].
    specialize (Hmax r Hr (eq_sym Hid)). lia. }
  split; [|exact Huniq].
  destruct (group_first_complete [] (sort_by vd_updatedAt (-1) store) r)
    as (g & Hg & Hid).
  - now apply sort_by_In.
  - intros [].
  - now rewrite <- (Huniq g Hg Hid).
Qed.

(** ** What the strategies hand to the model *)

Ltac run_cases env :=
  repeat (simpl;
    match goal with
    | |- context [match env ?X ?c with _ => _ end] =>
        destruct (env X c) as [?|?] eqn:?
    | |- context [match paginationOptions ?a with _ => _ end] =>
        destruct (paginationOptions a) as [?|] eqn:?
    | |- context [object_entries (po_sort ?p)] =>
        destruct (po_sort p) as [?|] eqn:?
    | |- context [map_docs _ (Awaited ?r)] => destruct r
    end).

Section StrategyFacts.
Context {Query Req : Type}.
Variable appendVersionToQueryKey : Where -> Where.
Variable combineQueries : Where -> option Where -> Where.

#[local] Abbreviation V1 := (@queryDraftsV1 Query Req appendVersionToQueryKey).
#[local] Abbreviation V2 := (@queryDraftsV2 Query Req combineQueries).
#[local] Abbreviation selector :=
  (@queryDrafts Query Req appendVersionToQueryKey combineQueries).

(** C4: [queryDrafts] does nothing but choose: with the flag set it is
    [queryDraftsV2] on the very same arguments, otherwise [queryDraftsV1] on
    the very same arguments; and on a configuration that carries the flag,
    the choice is the flag's boolean value. *)
Theorem queryDrafts_pure_dispatch :
  (forall args : Args Req,
     selector args
     = if flag_queryDrafts_2_0 (payload args) then V2 args else V1 args)
  /\ (forall (b : bool) (mo : option MongoOptions),
        flag_queryDrafts_2_0
          (mkPayload (Some (mkConfig (Some (mkDatabaseConfig (Some b))))) mo) = b)
  /\ (forall (env : Env Query Req) (args : Args Req),
        run env (selector args)
        = if flag_queryDrafts_2_0 (payload args)
          then run env (V2 args) else run env (V1 args)).
Proof.
  split; [|split].
  - intros args. reflexivity.
  - intros b mo. reflexivity.
  - intros env args. unfold queryDrafts.
    now destruct (flag_queryDrafts_2_0 (payload args)).
Qed.

(** C5: under Strategy B the query builder is called once, with
    [combineQueries({ latest: { equals: true } }, where)] as its predicate and
    with the access result as it was received, no key of it rewritten. *)
Theorem queryDraftsV2_hands_combined_where :
  forall (env : Env Query Req) (args : Args Req),
    buildQuery_calls (fst (run env (V2 args)))
    = [ mkBuildQueryArgs
          (combineQueries [("latest", JObj [("equals", JBool true)])] (where_ args))
          (Some (accessResult args))
          (req args) (overrideAccess args) ].
Proof.
  intros env args. unfold queryDraftsV2, versionsQueryArgs.
  run_cases env; reflexivity.
Qed.

(** C7: under Strategy A the query builder is called once; a where-predicate
    as access result reaches it rewritten by [appendVersionToQueryKey], the
    rewriter also applied to the caller's where; with an access result of
    [true] (or any boolean) no access predicate is handed over. *)
Theorem queryDraftsV1_hands_rewritten_access :
  forall (env : Env Query Req) (args : Args Req),
    buildQuery_calls (fst (run env (V1 args)))
    = [ mkBuildQueryArgs
          (appendVersionToQueryKey (where_or_empty (where_ args)))
          (match accessResult args with
           | AccessWhere w => Some (AccessWhere (appendVersionToQueryKey w))
           | AccessBool _ => None
           end)
          (req args) (overrideAccess args) ].
Proof.
  intros env args. unfold queryDraftsV1, versionQueryArgs.
  destruct (accessResult args); run_cases env; reflexivity.
Qed.

(** C9: a pagination spec without a sort mapping stops both strategies at
    [Object.entries]: the query builder has been consulted, nothing has been
    executed on the store, and the call ends in a [TypeError] (or in the query
    builder's own failure). *)
Theorem pagination_without_sort_fails :
  forall (env : Env Query Req) (ar : AccessResult) (col : Collection) (r : Req)
         (ov : bool) (rest : Obj JValue) (pl : Payload) (wh : option Where),
    let args := mkArgs ar col r ov (Some (mkPaginateOptions None rest)) pl wh in
    let model := slug (collection_config col) in
    let bq1 := versionQueryArgs appendVersionToQueryKey args in
    let bq2 := versionsQueryArgs combineQueries args in
    run env (V1 args)
    = ([Ev (BuildQuery model bq1)],
       Err (match env _ (BuildQuery model bq1) with
            | Ok _ => entries_of_undefined
            | Err e => e
            end))
    /\ existsb is_execution (fst (run env (V1 args))) = false
    /\ run env (V2 args)
       = ([Ev (BuildQuery model bq2)],
          Err (match env _ (BuildQuery model bq2) with
               | Ok _ => entries_of_undefined
               | Err e => e
               end))
    /\ existsb is_execution (fst (run env (V2 args))) = false.
Proof.
  intros env ar col r ov rest pl wh args model bq1 bq2.
  assert (H1 : run env (V1 args)
               = ([Ev (BuildQuery model bq1)],
                  Err (match env _ (BuildQuery model bq1) with
                       | Ok _ => entries_of_undefined
                       | Err e => e
                       end))).
  { unfold queryDraftsV1. simpl. fold model. fold bq1.
    destruct (env _ (BuildQuery model bq1)); reflexivity. }
  assert (H2 : run env (V2 args)
               = ([Ev (BuildQuery model bq2)],
                  Err (match env _ (BuildQuery model bq2) with
                       | Ok _ => entries_of_undefined
                       | Err e => e
                       end))).
  { unfold queryDraftsV2. simpl. fold model. fold bq2.
    destruct (env _ (BuildQuery model bq2)); reflexivity. }
  split; [exact H1|]. split; [now rewrite H1|].
  split; [exact H2|]. now rewrite H2.
Qed.

(** C10: without a configuration object, or without its database section, or
    with the flag missing or false, [queryDrafts] is [queryDraftsV1]; it is
    [queryDraftsV2] exactly when configuration and database section are both
    there and the flag is true. *)
Theorem queryDrafts_falls_back_without_config :
  forall args : Args Req,
    (payload_config (payload args) = None -> selector args = V1 args)
    /\ (forall c, payload_config (payload args) = Some c ->
                  config_database c = None -> selector args = V1 args)
    /\ (forall c d, payload_config (payload args) = Some c ->
                    config_database c = Some d ->
                    queryDrafts_2_0 d <> Some true -> selector args = V1 args)
    /\ (forall c d, payload_config (payload args) = Some c ->
                    config_database c = Some d ->
                    queryDrafts_2_0 d = Some true -> selector args = V2 args)
    /\ (flag_queryDrafts_2_0 (payload args) = true <->
        exists c d, payload_config (payload args) = Some c
                    /\ config_database c = Some d
                    /\ queryDrafts_2_0 d = Some true).
Proof.
  intros args. unfold queryDrafts, flag_queryDrafts_2_0.
  repeat split.
  - intros ->. reflexivity.
  - intros c -> ->. reflexivity.
  - intros c d -> -> Hflag.
    destruct (queryDrafts_2_0 d) as [[|]|]; [now elim Hflag | reflexivity | reflexivity].
  - intros c d -> -> ->. reflexivity.
  - destruct (payload_config (payload args)) as [c|]; [|discriminate].
    destruct (config_database c) as [d|] eqn:Hd; [|discriminate].
    destruct (queryDrafts_2_0 d) as [[|]|] eqn:Hf; try discriminate.
    intros _. exists c, d. repeat split; assumption.
  - intros [c [d [-> [-> ->]]]]. reflexivity.
Qed.

(** C8, Strategy A: with no pagination spec the aggregation is issued but not
    awaited, [result] holds the pending promise, [result.docs] is [undefined]
    and the call ends in an error; no result is ever returned. *)
Theorem queryDraftsV1_unpaginated_never_returns :
  forall (env : Env Query Req) (ar : AccessResult) (col : Collection) (r : Req)
         (ov : bool) (pl : Payload) (wh : option Where),
    let args := mkArgs ar col r ov None pl wh in
    let model := slug (collection_config col) in
    snd (run env (V1 args))
    = Err (match env _ (BuildQuery model
                          (versionQueryArgs appendVersionToQueryKey args)) with
           | Err e => e
           | Ok q =>
               match env _ (AggregateExec model
                              (mkAggregate (aggregatePipeline q) true)) with
               | Err e => e
               | Ok _ => map_of_undefined
               end
           end).
Proof.
  intros env ar col r ov pl wh args model.
  unfold queryDraftsV1. simpl. fold model.
  destruct (env _ (BuildQuery _ _)) as [q|e]; simpl; [|reflexivity].
  destruct (env _ (AggregateExec _ _)) as [u|e]; reflexivity.
Qed.

(** Strategy B with no pagination spec: the rows of an awaited [find] are
    normalized when the model answers with an object carrying [docs]; a bare
    array has no [docs] to map over. *)
Lemma queryDraftsV2_unpaginated :
  forall (env : Env Query Req) (ar : AccessResult) (col : Collection) (r : Req)
         (ov : bool) (pl : Payload) (wh : option Where),
    let args := mkArgs ar col r ov None pl wh in
    let model := slug (collection_config col) in
    snd (run env (V2 args))
    = match env _ (BuildQuery model (versionsQueryArgs combineQueries args)) with
      | Err e => Err e
      | Ok q =>
          match env _ (Find model q) with
          | Err e => Err e
          | Ok (Page p) => Ok (mkPaginatedDocs (map normalizeV2 (docs p)) (pageInfo p))
          | Ok (Rows _) => Err map_of_undefined
          end
      end.
Proof.
  intros env ar col r ov pl wh args model.
  unfold queryDraftsV2. simpl. fold model.
  destruct (env _ (BuildQuery _ _)) as [q|e]; simpl; [|reflexivity].
  destruct (env _ (Find _ _)) as [[p|l]|e]; reflexivity.
Qed.

(** Every row a strategy returns is the normalizer applied to a row of the
    page the model answered with; the paging fields pass through. *)
Lemma queryDraftsV1_result_rows (env : Env Query Req) (args : Args Req) res :
  snd (run env (V1 args)) = Ok res ->
  exists model a o page,
    env _ (AggregatePaginate model a o) = Ok (Page page)
    /\ res = mkPaginatedDocs (map normalizeV1 (docs page)) (pageInfo page).
Proof.
  unfold queryDraftsV1. run_cases env; intros H; try discriminate.
  inversion H; subst. eauto 10.
Qed.

Lemma queryDraftsV2_result_rows (env : Env Query Req) (args : Args Req) res :
  snd (run env (V2 args)) = Ok res ->
  exists page,
    ((exists model q o, env _ (Paginate model q o) = Ok (Page page))
     \/ (exists model q, env _ (Find model q) = Ok (Page page)))
    /\ res = mkPaginatedDocs (map normalizeV2 (docs page)) (pageInfo page).
Proof.
  unfold queryDraftsV2. run_cases env; intros H; try discriminate;
    inversion H; subst; eauto 10.
Qed.

(** C2, amended: in both strategies [updatedAt] and [createdAt] of a returned
    entity are those of the store's row, whatever the payload holds under
    these names; the identifier is written before the payload is spread, and
    a payload field of its name ([_id], under Strategy B also [id]) takes its
    place. *)
Theorem normalizer_timestamps_from_metadata :
  (forall doc : AggregateVersion,
      obj_get "updatedAt" (normalizeV1 doc) = Some (JDate (agg_updatedAt doc))
      /\ obj_get "createdAt" (normalizeV1 doc) = Some (JDate (agg_createdAt doc)))
  /\ (forall doc : VersionDoc,
        obj_get "updatedAt" (normalizeV2 doc) = Some (JDate (vd_updatedAt doc))
        /\ obj_get "createdAt" (normalizeV2 doc) = Some (JDate (vd_createdAt doc)))
  /\ (forall (env : Env Query Req) (args : Args Req) res,
        snd (run env (V1 args)) = Ok res ->
        exists model a o page,
          env _ (AggregatePaginate model a o) = Ok (Page page)
          /\ Forall2
               (fun row entity =>
                  obj_get "updatedAt" entity = Some (JDate (agg_updatedAt row))
                  /\ obj_get "createdAt" entity = Some (JDate (agg_createdAt row)))
               (docs page) (docs res))
  /\ (forall (env : Env Query Req) (args : Args Req) res,
        snd (run env (V2 args)) = Ok res ->
        exists page,
          ((exists model q o, env _ (Paginate model q o) = Ok (Page page))
           \/ (exists model q, env _ (Find model q) = Ok (Page page)))
          /\ Forall2
               (fun row entity =>
                  obj_get "updatedAt" entity = Some (JDate (vd_updatedAt row))
                  /\ obj_get "createdAt" entity = Some (JDate (vd_createdAt row)))
               (docs page) (docs res))
  /\ (forall (doc : AggregateVersion) v,
        NoDup (obj_keys (agg_version doc)) ->
        obj_get "_id" (agg_version doc) = Some v ->
        obj_get "_id" (normalizeV1 doc) = Some v)
  /\ (forall (doc : VersionDoc) k v,
        k = "_id" \/ k = "id" ->
        NoDup (obj_keys (vd_version doc)) ->
        obj_get k (vd_version doc) = Some v ->
        obj_get k (normalizeV2 doc) = Some v).
Proof.
  assert (T1 : forall doc : AggregateVersion,
             obj_get "updatedAt" (normalizeV1 doc) = Some (JDate (agg_updatedAt doc))
             /\ obj_get "createdAt" (normalizeV1 doc) = Some (JDate (agg_createdAt doc))).
  { intros doc. unfold normalizeV1. split.
    - rewrite obj_get_set_other by discriminate. apply obj_get_set_same.
    - apply obj_get_set_same. }
  assert (T2 : forall doc : VersionDoc,
             obj_get "updatedAt" (normalizeV2 doc) = Some (JDate (vd_updatedAt doc))
             /\ obj_get "createdAt" (normalizeV2 doc) = Some (JDate (vd_createdAt doc))).
  { intros doc. unfold normalizeV2. split.
    - rewrite obj_get_set_other by discriminate. apply obj_get_set_same.
    - apply obj_get_set_same. }
  split; [exact T1|]. split; [exact T2|]. split; [|split; [|split]].
  - intros env args res Hres.
    destruct (queryDraftsV1_result_rows env args res Hres)
      as (model & a & o & page & Henv & ->).
    exists model, a, o, page. split; [assumption|]. simpl.
    apply Forall2_map_image. auto.
  - intros env args res Hres.
    destruct (queryDraftsV2_result_rows env args res Hres) as (page & Henv & ->).
    exists page. split; [assumption|]. simpl.
    apply Forall2_map_image. auto.
  - intros doc v Hnd Hsome. unfold normalizeV1.
    rewrite !obj_get_set_other by discriminate.
    now apply obj_get_spread_present.
  - intros doc k v Hk Hnd Hsome. unfold normalizeV2.
    rewrite !obj_get_set_other by (destruct Hk; subst k; discriminate).
    now apply obj_get_spread_present.
Qed.

(** C3, amended: the identifier of a returned entity is the group key under
    Strategy A and the record's [parent] under Strategy B whenever the payload
    has no field of the identifier's name; the version record's own id is not
    read at all. *)
Theorem entity_id_is_parent_id :
  (forall doc : AggregateVersion,
      obj_get "_id" (agg_version doc) = None ->
      obj_get "_id" (normalizeV1 doc) = Some (JStr (agg_id doc)))
  /\ (forall r : VersionDoc,
        obj_get "_id" (vd_version r) = None ->
        obj_get "_id" (normalizeV1 (as_group r)) = Some (JStr (vd_parent r)))
  /\ (forall doc : AggregateVersion,
        obj_get "id" (agg_version doc) = None ->
        obj_get "id" (normalizeV1 doc) = None)
  /\ (forall (doc : VersionDoc) k,
        k = "_id" \/ k = "id" ->
        obj_get k (vd_version doc) = None ->
        obj_get k (normalizeV2 doc) = Some (JStr (vd_parent doc)))
  /\ (forall own own' parent version updated created latest,
        normalizeV2 (mkVersionDoc own parent version updated created latest)
        = normalizeV2 (mkVersionDoc own' parent version updated created latest))
  /\ (forall (env : Env Query Req) (args : Args Req) res,
        snd (run env (V1 args)) = Ok res ->
        exists model a o page,
          env _ (AggregatePaginate model a o) = Ok (Page page)
          /\ Forall2
               (fun row entity =>
                  obj_get "_id" (agg_version row) = None ->
                  obj_get "_id" entity = Some (JStr (agg_id row)))
               (docs page) (docs res))
  /\ (forall (env : Env Query Req) (args : Args Req) res,
        snd (run env (V2 args)) = Ok res ->
        exists page,
          ((exists model q o, env _ (Paginate model q o) = Ok (Page page))
           \/ (exists model q, env _ (Find model q) = Ok (Page page)))
          /\ Forall2
               (fun row entity =>
                  forall k, k = "_id" \/ k = "id" ->
                  obj_get k (vd_version row) = None ->
                  obj_get k entity = Some (JStr (vd_parent row)))
               (docs page) (docs res)).
Proof.
  assert (T1 : forall doc : AggregateVersion,
             obj_get "_id" (agg_version doc) = None ->
             obj_get "_id" (normalizeV1 doc) = Some (JStr (agg_id doc))).
  { intros doc Hnone. unfold normalizeV1.
    rewrite !obj_get_set_other by discriminate.
    rewrite obj_get_spread_absent by assumption. reflexivity. }
  assert (T2 : forall (doc : VersionDoc) k,
             k = "_id" \/ k = "id" ->
             obj_get k (vd_version doc) = None ->
             obj_get k (normalizeV2 doc) = Some (JStr (vd_parent doc))).
  { intros doc k Hk Hnone. unfold normalizeV2.
    rewrite !obj_get_set_other by (destruct Hk; subst k; discriminate).
    rewrite obj_get_spread_absent by assumption.
    destruct Hk; subst k; reflexivity. }
  split; [exact T1|]. split; [|split; [|split; [exact T2|split; [|split]]]].
  - intros r Hnone. now apply (T1 (as_group r)).
  - intros doc Hnone. unfold normalizeV1.
    rewrite !obj_get_set_other by discriminate.
    rewrite obj_get_spread_absent by assumption. reflexivity.
  - reflexivity.
  - intros env args res Hres.
    destruct (queryDraftsV1_result_rows env args res Hres)
      as (model & a & o & page & Henv & ->).
    exists model, a, o, page. split; [assumption|]. simpl.
    apply Forall2_map_image. auto.
  - intros env args res Hres.
    destruct (queryDraftsV2_result_rows env args res Hres) as (page & Henv & ->).
    exists page. split; [assumption|]. simpl.
    apply Forall2_map_image. auto.
Qed.

(** C6, amended: in both strategies the paginating call receives the sort
    mapping with every key other than [createdAt], [updatedAt] and [_id]
    moved under [version.] (the key [id] included), those three kept, the
    token ['asc'] turned into 1 and ['desc'], like any other token, into -1;
    the entries keep their order. *)
Theorem sort_keys_remapped_for_pagination :
  (forall k, In k ["createdAt"; "updatedAt"; "_id"] -> sortKey k = k)
  /\ (forall k, ~ In k ["createdAt"; "updatedAt"; "_id"] ->
                sortKey k = "version." ++ k)
  /\ sortOrder "asc" = 1
  /\ (forall token, token <> "asc" -> sortOrder token = -1)
  /\ (forall entries : Obj string,
        NoDup (obj_keys entries) ->
        remapSort entries
        = map (fun entry => (sortKey (fst entry), sortOrder (snd entry))) entries)
  /\ (forall (env : Env Query Req) ar col r ov entries rest pl wh,
        let args :=
          mkArgs ar col r ov (Some (mkPaginateOptions (Some entries) rest)) pl wh in
        let model := slug (collection_config col) in
        paginate_calls (fst (run env (V1 args)))
        = match env _ (BuildQuery model
                         (versionQueryArgs appendVersionToQueryKey args)) with
          | Ok _ => [ mkStorePaginateOptions rest None None
                        (mongo_useFacet pl) (remapSort entries) ]
          | Err _ => []
          end
        /\ paginate_calls (fst (run env (V2 args)))
           = match env _ (BuildQuery model
                            (versionsQueryArgs combineQueries args)) with
             | Ok _ => [ mkStorePaginateOptions rest (Some true) (Some true)
                           (mongo_useFacet pl) (remapSort entries) ]
             | Err _ => []
             end).
Proof.
  split; [exact sortKey_metadata|]. split; [exact sortKey_payload|].
  split; [reflexivity|]. split; [|split].
  - intros token Hne. unfold sortOrder.
    destruct (String.eqb token "asc") eqn:E; [|reflexivity].
    apply String.eqb_eq in E. contradiction.
  - exact remapSort_distinct_keys.
  - intros env ar col r ov entries rest pl wh args model. split.
    + unfold queryDraftsV1. simpl. fold model.
      destruct (env _ (BuildQuery _ _)) as [q|e]; simpl; [|reflexivity].
      destruct (env _ (AggregatePaginate _ _ _)) as [[p|l]|e]; reflexivity.
    + unfold queryDraftsV2. simpl. fold model.
      destruct (env _ (BuildQuery _ _)) as [q|e]; simpl; [|reflexivity].
      destruct (env _ (Paginate _ _ _)) as [[p|l]|e]; reflexivity.
Qed.

(** C1: the aggregate Strategy A hands to the store is, in this order, the
    sort by [updatedAt] descending, the group by [$parent] taking the first
    [version], [updatedAt] and [createdAt], and the match on the query
    builder's predicate.  Run over any collection it therefore filters the
    one row per parent that the newest record of that parent gives: a parent
    whose newest record fails the predicate has no row in the result,
    whichever of its older records would pass. *)
Theorem aggregation_filters_resolved_latest :
  forall (matches : Query -> AggregateVersion -> bool),
    (forall (env : Env Query Req) (args : Args Req) a,
        In a (aggregate_calls (fst (run env (V1 args)))) ->
        exists q,
          env _ (BuildQuery (slug (collection_config (collection args)))
                   (versionQueryArgs appendVersionToQueryKey args)) = Ok q
          /\ a = mkAggregate
                   [ SortStage "updatedAt" (-1);
                     GroupStage "$parent"
                       [("version", "$version"); ("updatedAt", "$updatedAt");
                        ("createdAt", "$createdAt")];
                     MatchStage q ]
                   true)
    /\ (forall (env : Env Query Req) ar col r ov entries rest pl wh,
          let args :=
            mkArgs ar col r ov (Some (mkPaginateOptions (Some entries) rest)) pl wh in
          aggregate_calls (fst (run env (V1 args)))
          = match env _ (BuildQuery (slug (collection_config col))
                           (versionQueryArgs appendVersionToQueryKey args)) with
            | Ok q => [ mkAggregate (aggregatePipeline q) true ]
            | Err _ => []
            end)
    /\ forall (q : Query) (store : list VersionDoc),
        let sorted := sort_by vd_updatedAt (-1) store in
        let latest := group_first [] sorted in
        let rows := filter (matches q) latest in
        aggregate_rows matches (mkAggregate (aggregatePipeline q) true) store = Some rows
        /\ (newest_first vd_updatedAt sorted /\ forall r, In r sorted <-> In r store)
        /\ NoDup (map agg_id latest)
        /\ (forall g, In g latest -> matches q g = false ->
                      forall g', In g' rows -> agg_id g' <> agg_id g)
        /\ (forall g, In g rows ->
              matches q g = true
              /\ exists r, In r store /\ g = as_group r
                           /\ forall r', In r' store -> vd_parent r' = vd_parent r ->
                                          vd_updatedAt r' <= vd_updatedAt r)
        /\ (forall r,
              In r store ->
              (forall r', In r' store -> vd_parent r' = vd_parent r ->
                          r' = r \/ vd_updatedAt r' < vd_updatedAt r) ->
              (In (as_group r) rows <-> matches q (as_group r) = true)
              /\ (matches q (as_group r) = false ->
                  forall g, In g rows -> agg_id g <> vd_parent r)).
Proof.
  intros matches. split; [|split].
  - intros env args a. unfold queryDraftsV1. simpl.
    destruct (env _ (BuildQuery _ _)) as [q|e] eqn:E; simpl; [|intros []].
    destruct (paginationOptions args) as [po|]; simpl.
    + destruct (po_sort po) as [entries|]; simpl; [|intros []].
      destruct (env _ (AggregatePaginate _ _ _)) as [[p|l]|e']; simpl;
        (intros [<- | []]; exists q; split; reflexivity).
    + destruct (env _ (AggregateExec _ _)) as [u|e']; simpl;
        (intros [<- | []]; exists q; split; reflexivity).
  - intros env ar col r ov entries rest pl wh args.
    unfold queryDraftsV1. simpl.
    destruct (env _ (BuildQuery _ _)) as [q|e]; simpl; [|reflexivity].
    destruct (env _ (AggregatePaginate _ _ _)) as [[p|l]|e]; reflexivity.
  - intros q store sorted latest rows.
    split; [reflexivity|]. split; [|split; [|split; [|split]]].
    + split; [apply sort_by_newest_first | intros r; apply sort_by_In].
    + apply group_first_NoDup.
    + intros g Hg Hfalse g' Hg' Hid. apply filter_In in Hg' as [Hg' Hm].
      rewrite (group_first_one_per_parent _ _ _ _ Hg' Hg Hid) in Hm. congruence.
    + intros g Hg. apply filter_In in Hg as [Hg Hm].
      split; [assumption | now apply latest_row_is_most_recent].
    + intros r Hr Hlatest.
      destruct (strictly_latest_is_row store r Hr Hlatest) as [Hrow Huniq].
      split.
      * unfold rows. rewrite filter_In. fold sorted in Hrow. fold latest in Hrow.
        tauto.
      * intros Hfalse g Hg Hid. apply filter_In in Hg as [Hg Hm].
        rewrite (Huniq g Hg Hid) in Hm. congruence.
Qed.

End StrategyFacts.

(** * The properties on the small collection *)

(** C1 on the small collection: X's newest record is a draft, its older one is
    published; asked for published entities, the aggregate returns Y alone. *)
Lemma aggregation_filters_resolved_latest_witness :
  let older := mkVersionDoc "v1" "X"
                 [("title", JStr "first"); ("_status", JStr "published")] 10 10 None in
  let newest := mkVersionDoc "v2" "X"
                  [("title", JStr "second"); ("_status", JStr "draft")] 20 10 None in
  let rows := filter (status_matches "published")
                (group_first [] (sort_by vd_updatedAt (-1) demo_store)) in
  In newest demo_store
  /\ (forall r', In r' demo_store -> vd_parent r' = vd_parent newest ->
                 r' = newest \/ vd_updatedAt r' < vd_updatedAt newest)
  /\ status_matches "published" (as_group newest) = false
  /\ status_matches "published" (as_group older) = true
  /\ (forall g, In g rows -> agg_id g <> "X").
Proof.
  intros older newest rows.
  assert (Hin : In newest demo_store) by (simpl; tauto).
  assert (Hlatest : forall r', In r' demo_store -> vd_parent r' = vd_parent newest ->
                               r' = newest \/ vd_updatedAt r' < vd_updatedAt newest).
  { intros r' [<- | [<- | [<- | []]]] Hp; simpl in *;
      [right; lia | left; reflexivity | discriminate Hp]. }
  repeat split; try assumption; try reflexivity.
  exact (proj2 (proj2 (proj2 (proj2 (proj2 (proj2
           (proj2 (proj2 (aggregation_filters_resolved_latest (Req := unit)
                            demo_append status_matches))
              "published" demo_store))))) newest Hin Hlatest) eq_refl).
Defined.

(** C8 on the small collection: without a pagination spec Strategy A issues
    the aggregation and ends in the [TypeError] of [result.docs.map], although
    the model answers every call. *)
Example queryDraftsV1_unpaginated_on_demo_store :
  run (demo_model "published" demo_store (Rows []))
    (queryDraftsV1 demo_append (demo_args_unpaginated None))
  = ([ Ev (BuildQuery "posts" (mkBuildQueryArgs [] None tt false));
       Ev (AggregateExec "posts" (mkAggregate (aggregatePipeline "published") true)) ],
     Err map_of_undefined).
Proof. reflexivity. Qed.

(** C2 on a forged row: the payload's [updatedAt] loses against the record's,
    the payload's [id] wins against the parent's. *)
Lemma normalizer_timestamps_from_metadata_witness :
  let model := demo_model "published" demo_store (Page (mkPaginatedDocs [forged_row] [])) in
  let args := demo_args (Some true) (Some [("title", "asc")]) in
  let res := mkPaginatedDocs (map normalizeV2 [forged_row]) [] in
  snd (run model (queryDraftsV2 demo_combine args)) = Ok res
  /\ (exists page,
        ((exists m q o, model _ (Paginate m q o) = Ok (Page page))
         \/ (exists m q, model _ (Find m q) = Ok (Page page)))
        /\ Forall2
             (fun row entity =>
                obj_get "updatedAt" entity = Some (JDate (vd_updatedAt row))
                /\ obj_get "createdAt" entity = Some (JDate (vd_createdAt row)))
             (docs page) (docs res))
  /\ NoDup (obj_keys (vd_version forged_row))
  /\ obj_get "id" (vd_version forged_row) = Some (JStr "forged")
  /\ obj_get "id" (normalizeV2 forged_row) = Some (JStr "forged").
Proof.
  intros model args res.
  assert (Hrun : snd (run model (queryDraftsV2 demo_combine args)) = Ok res)
    by reflexivity.
  assert (Hnd : NoDup (obj_keys (vd_version forged_row))).
  { simpl. repeat constructor; simpl; intuition discriminate. }
  split; [exact Hrun|]. split; [|split; [exact Hnd|split; [reflexivity|]]].
  - exact (proj1 (proj2 (proj2 (proj2
             (normalizer_timestamps_from_metadata demo_append demo_combine))))
             model args res Hrun).
  - exact (proj2 (proj2 (proj2 (proj2 (proj2
             (normalizer_timestamps_from_metadata (Query := string) (Req := unit)
                demo_append demo_combine)))))
             forged_row "id" (JStr "forged") (or_intror eq_refl) Hnd eq_refl).
Defined.

(** C2 as stated fails: the entity Strategy B returns for the forged row has
    the payload's [id], not the parent's. *)
Lemma payload_id_overrides_metadata_id :
  let model := demo_model "published" demo_store (Page (mkPaginatedDocs [forged_row] [])) in
  let args := demo_args (Some true) (Some [("title", "asc")]) in
  exists entity,
    snd (run model (queryDraftsV2 demo_combine args)) = Ok (mkPaginatedDocs [entity] [])
    /\ obj_get "id" entity = Some (JStr "forged")
    /\ obj_get "id" entity <> Some (JStr (vd_parent forged_row)).
Proof.
  eexists. split; [reflexivity|]. split; [reflexivity | discriminate].
Defined.

(** C3 on the small collection: Y's payload has no [_id], and the entity's
    [_id] is the group key. *)
Lemma entity_id_is_parent_id_witness :
  let row := mkAggregateVersion "Y"
               [("title", JStr "other"); ("_status", JStr "published")] 15 15 in
  obj_get "_id" (agg_version row) = None
  /\ obj_get "_id" (normalizeV1 row) = Some (JStr "Y")
  /\ obj_get "id" (vd_version (mkVersionDoc "v3" "Y" [("title", JStr "other")] 15 15 (Some true)))
     = None
  /\ obj_get "id" (normalizeV2 (mkVersionDoc "v3" "Y" [("title", JStr "other")] 15 15 (Some true)))
     = Some (JStr "Y").
Proof.
  intros row. split; [reflexivity|]. split; [|split; [reflexivity|]].
  - exact (proj1 (entity_id_is_parent_id (Query := string) (Req := unit)
                    demo_append demo_combine) row eq_refl).
  - exact (proj1 (proj2 (proj2 (proj2
             (entity_id_is_parent_id (Query := string) (Req := unit)
                demo_append demo_combine))))
             (mkVersionDoc "v3" "Y" [("title", JStr "other")] 15 15 (Some true))
             "id" (or_intror eq_refl) eq_refl).
Defined.

(** C3 as stated fails: with the record's own id kept in the payload under
    [_id], the entity Strategy A returns is identified by that id and not by
    the parent. *)
Lemma payload_own_id_replaces_parent_id :
  let model := demo_model "published" own_id_store (Rows []) in
  let args := demo_args None (Some []) in
  exists entity,
    snd (run model (queryDraftsV1 demo_append args))
    = Ok (mkPaginatedDocs [entity] [("page", JNum 1)])
    /\ obj_get "_id" entity = Some (JStr "v7")
    /\ obj_get "_id" entity <> Some (JStr "W").
Proof.
  eexists. split; [reflexivity|]. split; [reflexivity | discriminate].
Defined.

(** C6 on a two-key mapping: the payload key moves under [version.], [_id]
    stays, the tokens become 1 and -1. *)
Lemma sort_keys_remapped_for_pagination_witness :
  NoDup (obj_keys [("title", "asc"); ("_id", "desc")])
  /\ remapSort [("title", "asc"); ("_id", "desc")] = [("version.title", 1); ("_id", -1)]
  /\ In "_id" ["createdAt"; "updatedAt"; "_id"]
  /\ sortKey "_id" = "_id"
  /\ ~ In "title" ["createdAt"; "updatedAt"; "_id"]
  /\ sortKey "title" = "version.title"
  /\ "desc" <> "asc"
  /\ sortOrder "desc" = -1.
Proof.
  assert (Hnd : NoDup (obj_keys [("title", "asc"); ("_id", "desc")])).
  { simpl. repeat constructor; simpl; intuition discriminate. }
  assert (Hin : In "_id" ["createdAt"; "updatedAt"; "_id"]) by (simpl; tauto).
  assert (Hnin : ~ In "title" ["createdAt"; "updatedAt"; "_id"]).
  { simpl. intuition discriminate. }
  assert (Hne : "desc" <> "asc") by discriminate.
  pose proof (sort_keys_remapped_for_pagination (Query := string) (Req := unit)
                demo_append demo_combine) as (Hkeep & Hmove & _ & Hdesc & Hmap & _).
  split; [exact Hnd|]. split; [exact (Hmap _ Hnd)|].
  split; [exact Hin|]. split; [exact (Hkeep _ Hin)|].
  split; [exact Hnin|]. split; [exact (Hmove _ Hnin)|].
  split; [exact Hne | exact (Hdesc _ Hne)].
Defined.

(** C6 as stated fails: the sort key [id] is not kept, both strategies hand it
    to the store as [version.id]. *)
Lemma sort_key_id_is_moved_under_version :
  let model := demo_model "published" demo_store (Rows []) in
  sortKey "id" = "version.id"
  /\ sortKey "id" <> "id"
  /\ map spo_sort
       (paginate_calls
          (fst (run model (queryDraftsV1 demo_append
                             (demo_args None (Some [("id", "asc")]))))))
     = [[("version.id", 1)]]
  /\ map spo_sort
       (paginate_calls
          (fst (run model (queryDraftsV2 demo_combine
                             (demo_args (Some true) (Some [("id", "asc")]))))))
     = [[("version.id", 1)]].
Proof.
  intros model. split; [reflexivity|]. split; [discriminate|].
  split; reflexivity.
Defined.

(** C10 on two configurations: none at all, and one with the flag set. *)
Lemma queryDrafts_falls_back_without_config_witness :
  let bare := mkArgs (AccessBool true) (mkCollection (mkCollectionConfig "posts")) tt
                false None (mkPayload None None) None in
  let flagged := demo_args (Some true) None in
  payload_config (payload bare) = None
  /\ @queryDrafts string unit demo_append demo_combine bare
     = queryDraftsV1 demo_append bare
  /\ payload_config (payload flagged)
     = Some (mkConfig (Some (mkDatabaseConfig (Some true))))
  /\ @queryDrafts string unit demo_append demo_combine flagged
     = queryDraftsV2 demo_combine flagged.
Proof.
  intros bare flagged.
  split; [reflexivity|]. split; [|split; [reflexivity|]].
  - exact (proj1 (queryDrafts_falls_back_without_config (Query := string)
                    demo_append demo_combine bare) eq_refl).
  - exact (proj1 (proj2 (proj2 (proj2
             (queryDrafts_falls_back_without_config (Query := string)
                demo_append demo_combine flagged))))
             (mkConfig (Some (mkDatabaseConfig (Some true))))
             (mkDatabaseConfig (Some true)) eq_refl eq_refl eq_refl).
Defined.

(** * Further properties of the strategies *)

Ltac run_paths env args :=
  simpl;
  destruct (env _ (BuildQuery _ _)) as [?q|?e] eqn:?Hbuild; simpl;
  [ destruct (paginationOptions args) as [?po|] eqn:?Hpo; simpl;
    [ destruct (po_sort _) as [?entries|] eqn:?Hsort; simpl;
      [ match goal with
        | |- context [env ?X (AggregatePaginate ?m ?a ?o)] =>
            destruct (env X (AggregatePaginate m a o)) as [[?page|?rows]|?e] eqn:?Hexec
        | |- context [env ?X (Paginate ?m ?q ?o)] =>
            destruct (env X (Paginate m q o)) as [[?page|?rows]|?e] eqn:?Hexec
        end; simpl
      | ]
    | match goal with
      | |- context [env ?X (AggregateExec ?m ?a)] =>
          destruct (env X (AggregateExec m a)) as [?u|?e] eqn:?Hexec
      | |- context [env ?X (Find ?m ?q)] =>
          destruct (env X (Find m q)) as [[?page|?rows]|?e] eqn:?Hexec
      end; simpl ]
  | ].

Ltac blame_call env :=
  right; right;
  match goal with
  | Hb : env _ ?b = Ok _, Hx : env ?X ?c = Err _ |- _ =>
      exists X, c, [Ev b]; split; [reflexivity | exact Hx]
  | Hb : env ?X ?c = Err _ |- _ =>
      exists X, c, []; split; [reflexivity | exact Hb]
  end.

Section StrategyRuns.
Context {Query Req : Type}.
Variable appendVersionToQueryKey : Where -> Where.
Variable combineQueries : Where -> option Where -> Where.

#[local] Abbreviation A := (@queryDraftsV1 Query Req appendVersionToQueryKey).
#[local] Abbreviation B := (@queryDraftsV2 Query Req combineQueries).
#[local] Abbreviation entry :=
  (@queryDrafts Query Req appendVersionToQueryKey combineQueries).

(** X1: Strategy A returns a result exactly when a pagination spec with a
    sort mapping is given, the query builder answers, and the paginated
    aggregation answers with an object carrying [docs]; the result is then
    that object with every doc normalized and the paging fields untouched. *)
Theorem queryDraftsV1_returns_iff :
  forall (env : Env Query Req) (args : Args Req) (res : PaginatedDocs (Obj JValue)),
    snd (run env (A args)) = Ok res <->
    exists po entries q page,
      paginationOptions args = Some po
      /\ po_sort po = Some entries
      /\ env _ (BuildQuery (slug (collection_config (collection args)))
                  (versionQueryArgs appendVersionToQueryKey args)) = Ok q
      /\ env _ (AggregatePaginate (slug (collection_config (collection args)))
                  (mkAggregate (aggregatePipeline q) true)
                  (mkStorePaginateOptions (po_rest po) None None
                     (mongo_useFacet (payload args)) (remapSort entries)))
         = Ok (Page page)
      /\ res = mkPaginatedDocs (map normalizeV1 (docs page)) (pageInfo page).
Proof.
  intros env args res. unfold queryDraftsV1. split.
  - run_paths env args; intros H; try discriminate H.
    inversion H; subst. exists po, entries, q, page.
    repeat split; try reflexivity; assumption.
  - intros (po & entries & q & page & Hpo & Hsort & Hbuild & Hexec & ->).
    simpl. rewrite Hbuild. simpl. rewrite Hpo. simpl. rewrite Hsort. simpl.
    rewrite Hexec. reflexivity.
Qed.

(** X2: Strategy B returns a result exactly when the query builder answers
    and the one store call made with its answer ([paginate] under a
    pagination spec with a sort mapping, [find] without a pagination spec)
    answers with an object carrying [docs]; the result is that object with
    every doc normalized and the paging fields untouched. *)
Theorem queryDraftsV2_returns_iff :
  forall (env : Env Query Req) (args : Args Req) (res : PaginatedDocs (Obj JValue)),
    snd (run env (B args)) = Ok res <->
    exists q page,
      env _ (BuildQuery (slug (collection_config (collection args)))
               (versionsQueryArgs combineQueries args)) = Ok q
      /\ ((exists po entries,
             paginationOptions args = Some po
             /\ po_sort po = Some entries
             /\ env _ (Paginate (slug (collection_config (collection args))) q
                         (mkStorePaginateOptions (po_rest po) (Some true) (Some true)
                            (mongo_useFacet (payload args)) (remapSort entries)))
                = Ok (Page page))
          \/ (paginationOptions args = None
              /\ env _ (Find (slug (collection_config (collection args))) q)
                 = Ok (Page page)))
      /\ res = mkPaginatedDocs (map normalizeV2 (docs page)) (pageInfo page).
Proof.
  intros env args res. unfold queryDraftsV2. split.
  - run_paths env args; intros H; try discriminate H;
      inversion H; subst; exists q, page; (split; [reflexivity|]);
      (split; [|reflexivity]).
    + left. exists po, entries. repeat split; try reflexivity; assumption.
    + right. split; [reflexivity | assumption].
  - intros (q & page & Hbuild & Hcall & ->). simpl. rewrite Hbuild. simpl.
    destruct Hcall as [(po & entries & Hpo & Hsort & Hexec) | (Hpo & Hexec)].
    + rewrite Hpo. simpl. rewrite Hsort. simpl. rewrite Hexec. reflexivity.
    + rewrite Hpo. simpl. rewrite Hexec. reflexivity.
Qed.

(** X3: an error out of [queryDrafts] is one of the two [TypeError]s of the
    strategies ([Object.entries] of a missing sort, [map] of a missing [docs])
    or the very error the model gave to the last call made: failures of the
    model come out unchanged, and that call is the last. *)
Theorem queryDrafts_error_provenance :
  forall (env : Env Query Req) (args : Args Req) (e : JSError),
    snd (run env (entry args)) = Err e ->
    e = entries_of_undefined
    \/ e = map_of_undefined
    \/ exists (X : Type) (c : ModelE Query Req X) (before : list (Event Query Req)),
         fst (run env (entry args)) = (before ++ [Ev c])%list
         /\ env X c = Err e.
Proof.
  intros env args e. unfold queryDrafts.
  destruct (flag_queryDrafts_2_0 (payload args)).
  - unfold queryDraftsV2.
    run_paths env args; intros H; inversion H; subst; auto; blame_call env.
  - unfold queryDraftsV1.
    run_paths env args; intros H; inversion H; subst; auto; blame_call env.
Qed.

(** X4: whatever the arguments and the model's answers, [queryDrafts] first
    calls [buildQuery], then makes at most one call that executes something on
    the store, and never a third call; every call is made on the model named
    by [collection.config.slug]. *)
Theorem queryDrafts_call_sequence :
  forall (env : Env Query Req) (args : Args Req),
    exists bq rest,
      fst (run env (entry args))
      = Ev (BuildQuery (slug (collection_config (collection args))) bq) :: rest
      /\ (length rest <= 1)%nat
      /\ forallb is_execution rest = true
      /\ Forall (fun e => event_model e = slug (collection_config (collection args)))
           (fst (run env (entry args))).
Proof.
  intros env args. unfold queryDrafts.
  destruct (flag_queryDrafts_2_0 (payload args)).
  - unfold queryDraftsV2. eexists.
    run_paths env args; eexists; (split; [reflexivity|]); simpl;
      repeat split; auto; repeat constructor.
  - unfold queryDraftsV1. eexists.
    run_paths env args; eexists; (split; [reflexivity|]); simpl;
      repeat split; auto; repeat constructor.
Qed.

(** X5: the two strategies never mix: with the flag set no aggregate reaches
    the store, with the flag unset (or absent) neither [paginate] nor [find]
    is called. *)
Theorem queryDrafts_strategies_do_not_mix :
  forall (env : Env Query Req) (args : Args Req),
    if flag_queryDrafts_2_0 (payload args)
    then aggregate_calls (fst (run env (entry args))) = []
    else query_calls (fst (run env (entry args))) = [].
Proof.
  intros env args. unfold queryDrafts.
  destruct (flag_queryDrafts_2_0 (payload args)).
  - unfold queryDraftsV2. run_paths env args; reflexivity.
  - unfold queryDraftsV1. run_paths env args; reflexivity.
Qed.

(** X6: under Strategy B the predicate executed on the store is the query
    builder's answer itself: [paginate] or [find] is called once with it when
    the builder answers (and a requested pagination has its sort mapping),
    and not at all otherwise. *)
Theorem queryDraftsV2_executes_built_query :
  forall (env : Env Query Req) (args : Args Req),
    query_calls (fst (run env (B args)))
    = match env _ (BuildQuery (slug (collection_config (collection args)))
                     (versionsQueryArgs combineQueries args)) with
      | Err _ => []
      | Ok q =>
          match paginationOptions args with
          | None => [q]
          | Some po =>
              match po_sort po with
              | Some _ => [q]
              | None => []
              end
          end
      end.
Proof.
  intros env args. unfold queryDraftsV2.
  run_paths env args; reflexivity.
Qed.

End StrategyRuns.

(** ** Keys of the objects built by set and spread *)

Section ObjectKeyFacts.
Context {V : Type}.
Implicit Types (o target source : Obj V) (k : string) (v : V).

Lemma obj_get_set k k' v o :
  obj_get k (obj_set k' v o) = if String.eqb k k' then Some v else obj_get k o.
Proof.
  destruct (String.eqb k k') eqn:E.
  - apply String.eqb_eq in E. subst. apply obj_get_set_same.
  - apply String.eqb_neq in E. now apply obj_get_set_other.
Qed.

Lemma obj_keys_set k v o :
  obj_keys (obj_set k v o)
  = if includes (obj_keys o) k then obj_keys o else (obj_keys o ++ [k])%list.
Proof.
  induction o as [|[k' v'] rest IH]; simpl.
  - reflexivity.
  - unfold includes in *. simpl.
    destruct (String.eqb k k') eqn:E; simpl.
    + apply String.eqb_eq in E. now subst.
    + rewrite IH. now destruct (existsb (String.eqb k) (obj_keys rest)).
Qed.

Lemma obj_keys_set_In k k' v o :
  In k (obj_keys (obj_set k' v o)) <-> k = k' \/ In k (obj_keys o).
Proof.
  rewrite obj_keys_set.
  destruct (includes (obj_keys o) k') eqn:E.
  - apply includes_In in E. split; [tauto|]. intros [-> | H]; assumption.
  - rewrite in_app_iff. simpl. intuition.
Qed.

Lemma obj_keys_set_NoDup k v o :
  NoDup (obj_keys o) -> NoDup (obj_keys (obj_set k v o)).
Proof.
  intros Hnd. rewrite obj_keys_set.
  destruct (includes (obj_keys o) k) eqn:E; [assumption|].
  assert (Hnin : ~ In k (obj_keys o)).
  { intros H. apply includes_In in H. congruence. }
  clear E. induction (obj_keys o) as [|x ks IH]; simpl.
  - constructor; [tauto | constructor].
  - inversion Hnd; subst. constructor.
    + rewrite in_app_iff. simpl in *. intuition.
    + apply IH; [assumption | simpl in Hnin; tauto].
Qed.

Lemma obj_keys_spread_In k target source :
  In k (obj_keys (obj_spread target source))
  <-> In k (obj_keys target) \/ In k (obj_keys source).
Proof.
  unfold obj_spread. revert target.
  induction source as [|[k' v'] rest IH]; intros target; simpl.
  - tauto.
  - rewrite IH, obj_keys_set_In. intuition.
Qed.

Lemma obj_keys_spread_NoDup target source :
  NoDup (obj_keys target) -> NoDup (obj_keys (obj_spread target source)).
Proof.
  unfold obj_spread. revert target.
  induction source as [|[k' v'] rest IH]; intros target Hnd; simpl.
  - assumption.
  - apply IH. now apply obj_keys_set_NoDup.
Qed.



(** Two spreads of one source agree on a key their targets agree on. *)
Lemma obj_get_spread_congr k target target' source :
  obj_get k target = obj_get k target' ->
  obj_get k (obj_spread target source) = obj_get k (obj_spread target' source).
Proof.
  unfold obj_spread. revert target target'.
  induction source as [|[k' v'] rest IH]; intros target target' Heq; simpl.
  - assumption.
  - apply IH. rewrite !obj_get_set. now rewrite Heq.
Qed.
End ObjectKeyFacts.

(** ** The shape of a normalized entity *)

(** X7: the keys of a returned entity are the identifier ([_id], under
    Strategy B also [id]), the payload's keys, [updatedAt] and [createdAt],
    and nothing else; no key occurs twice, whatever the payload. *)
Theorem normalized_entity_keys :
  (forall (doc : AggregateVersion) (k : string),
      In k (obj_keys (normalizeV1 doc))
      <-> k = "_id" \/ k = "updatedAt" \/ k = "createdAt"
          \/ In k (obj_keys (agg_version doc)))
  /\ (forall doc : AggregateVersion, NoDup (obj_keys (normalizeV1 doc)))
  /\ (forall (row : VersionDoc) (k : string),
        In k (obj_keys (normalizeV2 row))
        <-> k = "_id" \/ k = "id" \/ k = "updatedAt" \/ k = "createdAt"
            \/ In k (obj_keys (vd_version row)))
  /\ (forall row : VersionDoc, NoDup (obj_keys (normalizeV2 row))).
Proof.
  split; [|split; [|split]].
  - intros doc k. unfold normalizeV1.
    rewrite !obj_keys_set_In, obj_keys_spread_In. simpl. intuition.
  - intros doc. unfold normalizeV1.
    repeat apply obj_keys_set_NoDup. apply obj_keys_spread_NoDup.
    simpl. repeat constructor; simpl; tauto.
  - intros row k. unfold normalizeV2.
    rewrite !obj_keys_set_In, obj_keys_spread_In. simpl. intuition.
  - intros row. unfold normalizeV2.
    repeat apply obj_keys_set_NoDup. apply obj_keys_spread_NoDup.
    simpl. repeat constructor; simpl; intuition discriminate.
Qed.

(** X8: a payload field whose name is none of [_id], [id], [updatedAt],
    [createdAt] reaches the entity unchanged under both strategies, and a
    name the payload lacks stays absent. *)
Theorem payload_fields_pass_through :
  forall (row : VersionDoc) (k : string),
    k <> "_id" -> k <> "id" -> k <> "updatedAt" -> k <> "createdAt" ->
    NoDup (obj_keys (vd_version row)) ->
    obj_get k (normalizeV1 (as_group row)) = obj_get k (vd_version row)
    /\ obj_get k (normalizeV2 row) = obj_get k (vd_version row).
Proof.
  intros row k H1 H2 H3 H4 Hnd. unfold normalizeV1, normalizeV2. simpl.
  rewrite !obj_get_set_other by assumption.
  destruct (obj_get k (vd_version row)) as [v|] eqn:E.
  - split; now apply obj_get_spread_present.
  - rewrite !obj_get_spread_absent by assumption. simpl.
    apply String.eqb_neq in H1, H2. now rewrite H1, H2.
Qed.

(** X9: on every key but [id] the entity Strategy B builds from a record
    equals the entity Strategy A builds from the group row of that record;
    the strategies differ only in that B also writes [id]. *)
Theorem strategies_normalize_alike_but_id :
  forall (row : VersionDoc) (k : string),
    k <> "id" ->
    obj_get k (normalizeV2 row) = obj_get k (normalizeV1 (as_group row)).
Proof.
  intros row k Hk. unfold normalizeV1, normalizeV2. simpl.
  rewrite !obj_get_set.
  destruct (String.eqb k "createdAt"); [reflexivity|].
  destruct (String.eqb k "updatedAt"); [reflexivity|].
  apply obj_get_spread_congr. simpl.
  apply String.eqb_neq in Hk. rewrite Hk.
  now destruct (String.eqb k "_id").
Qed.


(** ** The remapped sort mapping *)

Lemma obj_set_Forall {V : Type} (P : string * V -> Prop) k v (o : Obj V) :
  P (k, v) -> Forall P o -> Forall P (obj_set k v o).
Proof.
  intros Hkv Ho. induction Ho as [|[k' v'] rest Hx Hrest IH]; simpl.
  - now constructor.
  - destruct (String.eqb k k'); constructor; assumption.
Qed.

Lemma sortKey_not_fixed k : ~ In k metadataSortKeys -> sortKey k <> k.
Proof.
  intros Hnin. rewrite (sortKey_payload k Hnin). intros Heq.
  apply (f_equal String.length) in Heq. simpl in Heq. lia.
Qed.

Lemma sortKey_eqb a b : String.eqb (sortKey a) (sortKey b) = String.eqb a b.
Proof.
  destruct (String.eqb a b) eqn:E.
  - apply String.eqb_eq in E. subst. apply String.eqb_refl.
  - apply String.eqb_neq. apply String.eqb_neq in E.
    intros H. apply E. now apply sortKey_injective.
Qed.

Lemma version_prefix k : String.prefix "version." ("version." ++ k) = true.
Proof.
  simpl. destruct k; reflexivity.
Qed.

(** X11: whatever mapping is requested, the sort handed on has no key twice,
    each of its keys is [createdAt], [updatedAt], [_id] or starts with
    [version.], and each of its values is 1 or -1. *)
Theorem remapSort_well_formed :
  forall entries : Obj string,
    NoDup (obj_keys (remapSort entries))
    /\ Forall (fun kv =>
                 (In (fst kv) ["createdAt"; "updatedAt"; "_id"]
                  \/ String.prefix "version." (fst kv) = true)
                 /\ (snd kv = 1 \/ snd kv = -1))
         (remapSort entries).
Proof.
  intros entries. unfold remapSort.
  assert (H : forall acc : Obj Z,
             NoDup (obj_keys acc) ->
             Forall (fun kv =>
                       (In (fst kv) ["createdAt"; "updatedAt"; "_id"]
                        \/ String.prefix "version." (fst kv) = true)
                       /\ (snd kv = 1 \/ snd kv = -1)) acc ->
             let out :=
               fold_left
                 (fun sort entry =>
                    obj_set (sortKey (fst entry)) (sortOrder (snd entry)) sort)
                 entries acc in
             NoDup (obj_keys out)
             /\ Forall (fun kv =>
                          (In (fst kv) ["createdAt"; "updatedAt"; "_id"]
                           \/ String.prefix "version." (fst kv) = true)
                          /\ (snd kv = 1 \/ snd kv = -1)) out).
  { induction entries as [|[k o] rest IH]; intros acc Hnd Hall; simpl.
    - split; assumption.
    - apply IH.
      + now apply obj_keys_set_NoDup.
      + apply obj_set_Forall; [|assumption]. simpl. split.
        * destruct (sortKey_cases k) as [[Hin ->] | [_ ->]];
            [left; exact Hin | right; apply version_prefix].
        * unfold sortOrder. destruct (String.eqb o "asc"); auto. }
  apply H; constructor.
Qed.

(** X12: looking up the remapped name of a requested key in the sort handed
    on gives the signed value of that key's token, and nothing when the key
    was not requested. *)
Theorem remapSort_lookup :
  forall (entries : Obj string) (k : string),
    NoDup (obj_keys entries) ->
    obj_get (sortKey k) (remapSort entries)
    = option_map sortOrder (obj_get k entries).
Proof.
  intros entries k Hnd. rewrite (remapSort_distinct_keys entries Hnd).
  clear Hnd. induction entries as [|[k' o'] rest IH]; simpl.
  - reflexivity.
  - rewrite sortKey_eqb. destruct (String.eqb k k'); [reflexivity | exact IH].
Qed.

(** X13: the renaming of sort keys never makes two requested keys collide and
    never turns a payload key into a metadata key or back; it is not
    idempotent: renaming twice changes every key that is not one of
    [createdAt], [updatedAt], [_id] once more. *)
Theorem sortKey_keeps_keys_apart :
  (forall a b : string, sortKey a = sortKey b <-> a = b)
  /\ (forall k : string,
        includes metadataSortKeys (sortKey k) = includes metadataSortKeys k)
  /\ (forall k : string,
        sortKey (sortKey k) = sortKey k <-> In k ["createdAt"; "updatedAt"; "_id"]).
Proof.
  split; [|split].
  - intros a b. split; [apply sortKey_injective | now intros ->].
  - intros k. destruct (sortKey_cases k) as [[Hin ->] | [Hnin ->]]; [reflexivity|].
    destruct (includes metadataSortKeys k) eqn:E.
    + apply includes_In in E. contradiction.
    + reflexivity.
  - intros k. split.
    + intros Heq. apply sortKey_injective in Heq.
      destruct (sortKey_cases k) as [[Hin _] | [Hnin _]]; [exact Hin|].
      exfalso. now apply (sortKey_not_fixed k).
    + intros Hin. now rewrite !(sortKey_metadata k Hin).
Qed.

(** ** The aggregate over other collections *)




Lemma filter_accepting {A : Type} (f : A -> bool) (l : list A) :
  (forall x, f x = true) -> filter f l = l.
Proof.
  intros Hf. induction l as [|x l IH]; simpl; [reflexivity|].
  now rewrite Hf, IH.
Qed.


(** X15: when the predicate accepts every row, the aggregate of Strategy A
    gives exactly one row for each parent that has a record in the
    collection, and no row for any other id. *)
Theorem aggregate_one_row_per_parent :
  forall (Query : Type) (matches : Query -> AggregateVersion -> bool) (q : Query)
         (store : list VersionDoc),
    (forall g, matches q g = true) ->
    exists rows,
      aggregate_rows matches (mkAggregate (aggregatePipeline q) true) store = Some rows
      /\ NoDup (map agg_id rows)
      /\ (forall p, In p (map agg_id rows) <-> In p (map vd_parent store)).
Proof.
  intros Query matches q store Hall.
  exists (group_first [] (sort_by vd_updatedAt (-1) store)).
  split; [|split].
  - change (Some (filter (matches q)
                    (group_first [] (sort_by vd_updatedAt (-1) store)))
            = Some (group_first [] (sort_by vd_updatedAt (-1) store))).
    now rewrite filter_accepting.
  - apply group_first_NoDup.
  - intros p. rewrite !in_map_iff. split.
    + intros (g & <- & Hg).
      apply group_first_In in Hg as (l1 & r & l2 & Hsplit & -> & _ & _).
      exists r. split; [reflexivity|].
      apply (sort_by_In vd_updatedAt (-1)). rewrite Hsplit.
      apply in_or_app. right. now left.
    + intros (r & <- & Hr).
      destruct (group_first_complete [] (sort_by vd_updatedAt (-1) store) r)
        as (g & Hg & Hid).
      * now apply sort_by_In.
      * intros [].
      * exists g. split; assumption.
Qed.

(** * The further properties on the small collection *)

(** X1 on the small collection: asked for published entities, sorted by
    title, Strategy A returns the store's page with Y normalized. *)
Lemma queryDraftsV1_returns_iff_witness :
  let model := demo_model "published" demo_store (Rows []) in
  let args := demo_args None (Some [("title", "asc")]) in
  let res :=
    mkPaginatedDocs
      [ [("_id", JStr "Y"); ("title", JStr "other"); ("_status", JStr "published");
         ("updatedAt", JDate 15); ("createdAt", JDate 15)] ]
      [("page", JNum 1)] in
  snd (run model (queryDraftsV1 demo_append args)) = Ok res
  /\ exists po entries q page,
      paginationOptions args = Some po
      /\ po_sort po = Some entries
      /\ model _ (BuildQuery "posts" (versionQueryArgs demo_append args)) = Ok q
      /\ model _ (AggregatePaginate "posts"
                    (mkAggregate (aggregatePipeline q) true)
                    (mkStorePaginateOptions (po_rest po) None None
                       (mongo_useFacet (payload args)) (remapSort entries)))
         = Ok (Page page)
      /\ res = mkPaginatedDocs (map normalizeV1 (docs page)) (pageInfo page).
Proof.
  intros model args res.
  assert (Hrun : snd (run model (queryDraftsV1 demo_append args)) = Ok res)
    by reflexivity.
  split; [exact Hrun|].
  exact (proj1 (queryDraftsV1_returns_iff demo_append model args res) Hrun).
Defined.

(** X2 on the forged row: without a pagination spec Strategy B finds the row
    and returns it normalized. *)
Lemma queryDraftsV2_returns_iff_witness :
  let model := demo_model "published" demo_store
                 (Page (mkPaginatedDocs [forged_row] [])) in
  let args := demo_args_unpaginated (Some true) in
  let res := mkPaginatedDocs [normalizeV2 forged_row] [] in
  snd (run model (queryDraftsV2 demo_combine args)) = Ok res
  /\ exists q page,
      model _ (BuildQuery "posts" (versionsQueryArgs demo_combine args)) = Ok q
      /\ ((exists po entries,
             paginationOptions args = Some po
             /\ po_sort po = Some entries
             /\ model _ (Paginate "posts" q
                           (mkStorePaginateOptions (po_rest po) (Some true) (Some true)
                              (mongo_useFacet (payload args)) (remapSort entries)))
                = Ok (Page page))
          \/ (paginationOptions args = None
              /\ model _ (Find "posts" q) = Ok (Page page)))
      /\ res = mkPaginatedDocs (map normalizeV2 (docs page)) (pageInfo page).
Proof.
  intros model args res.
  assert (Hrun : snd (run model (queryDraftsV2 demo_combine args)) = Ok res)
    by reflexivity.
  split; [exact Hrun|].
  exact (proj1 (queryDraftsV2_returns_iff demo_combine model args res) Hrun).
Defined.

(** X3 on a model that is down: the failure of [buildQuery] comes out as it
    is, after that one call. *)
Lemma queryDrafts_error_provenance_witness :
  let args := demo_args None (Some [("title", "asc")]) in
  let e := StoreFailure "store unreachable" in
  snd (run failing_model (queryDrafts demo_append demo_combine args)) = Err e
  /\ (e = entries_of_undefined
      \/ e = map_of_undefined
      \/ exists (X : Type) (c : ModelE string unit X) before,
           fst (run failing_model (queryDrafts demo_append demo_combine args))
           = (before ++ [Ev c])%list
           /\ failing_model X c = Err e).
Proof.
  intros args e.
  assert (Hrun : snd (run failing_model (queryDrafts demo_append demo_combine args))
                 = Err e) by reflexivity.
  split; [exact Hrun|].
  exact (queryDrafts_error_provenance demo_append demo_combine failing_model args e Hrun).
Defined.

(** X8 on the forged row: its [title] is the entity's [title] under both
    strategies. *)
Lemma payload_fields_pass_through_witness :
  "title" <> "_id" /\ "title" <> "id" /\ "title" <> "updatedAt"
  /\ "title" <> "createdAt"
  /\ NoDup (obj_keys (vd_version forged_row))
  /\ obj_get "title" (normalizeV1 (as_group forged_row)) = Some (JStr "t")
  /\ obj_get "title" (normalizeV2 forged_row) = Some (JStr "t").
Proof.
  assert (H1 : "title" <> "_id") by discriminate.
  assert (H2 : "title" <> "id") by discriminate.
  assert (H3 : "title" <> "updatedAt") by discriminate.
  assert (H4 : "title" <> "createdAt") by discriminate.
  assert (Hnd : NoDup (obj_keys (vd_version forged_row))).
  { simpl. repeat constructor; simpl; intuition discriminate. }
  repeat (split; [assumption|]).
  exact (payload_fields_pass_through forged_row "title" H1 H2 H3 H4 Hnd).
Defined.

(** X9 on the forged row: both strategies give the record's [updatedAt]. *)
Lemma strategies_normalize_alike_but_id_witness :
  "updatedAt" <> "id"
  /\ obj_get "updatedAt" (normalizeV2 forged_row)
     = obj_get "updatedAt" (normalizeV1 (as_group forged_row)).
Proof.
  assert (H : "updatedAt" <> "id") by discriminate.
  split; [exact H|].
  exact (strategies_normalize_alike_but_id forged_row "updatedAt" H).
Defined.

(** X12 on a two-key mapping: [title] is found under [version.title] with 1,
    a key that was not requested is not found. *)
Lemma remapSort_lookup_witness :
  let entries := [("title", "asc"); ("_id", "desc")] in
  NoDup (obj_keys entries)
  /\ obj_get "version.title" (remapSort entries) = Some 1
  /\ obj_get "version.author" (remapSort entries) = None.
Proof.
  intros entries.
  assert (Hnd : NoDup (obj_keys entries)).
  { simpl. repeat constructor; simpl; intuition discriminate. }
  split; [exact Hnd|]. split.
  - exact (remapSort_lookup entries "title" Hnd).
  - exact (remapSort_lookup entries "author" Hnd).
Defined.


(** X15 on the small collection: with a predicate that accepts everything
    the aggregate has one row for X and one for Y. *)
Lemma aggregate_one_row_per_parent_witness :
  (forall g : AggregateVersion, (fun (_ : unit) (_ : AggregateVersion) => true) tt g = true)
  /\ exists rows,
      aggregate_rows (fun (_ : unit) (_ : AggregateVersion) => true)
        (mkAggregate (aggregatePipeline tt) true) demo_store = Some rows
      /\ NoDup (map agg_id rows)
      /\ (forall p, In p (map agg_id rows) <-> In p (map vd_parent demo_store)).
Proof.
  assert (H : forall g : AggregateVersion,
             (fun (_ : unit) (_ : AggregateVersion) => true) tt g = true)
    by reflexivity.
  split; [exact H|].
  exact (aggregate_one_row_per_parent unit (fun _ _ => true) tt demo_store H).
Defined.
